(** * Anomaly scanner: realized volatility, ATM selection, gap scoring, ranking

    A shallow embedding of the volatility pipeline of the scanner
    ([src/realized.py], [src/scan_sp500.py], [src/main.py],
    [scripts/backfill_realized_vol.py]) together with the properties its
    specification states about it.

    Numbers.  Python floats are idealised as real numbers: [+], [-], [*], [/],
    [math.log] and [math.sqrt] are the exact operations of [R], so rounding,
    overflow, infinities and NaN are outside the model.  Python integers are
    [Z] (window sizes, slice bounds) or [nat] (lengths, indices).

    Control.  A Python call either returns a value or raises; [result] records
    which.  Loop bodies that can [return] early or [continue] are written over
    [flow]. *)

From Stdlib Require Import String Ascii.
From Stdlib Require Import Reals Lra Lia ZArith List Bool.
From Stdlib Require Import Permutation Sorted.
Import ListNotations.

Set Warnings "-register-all".
Open Scope R_scope.

(** ** Python run-time conventions used by the sources *)

Module Py.

Inductive exn : Type :=
| ZeroDivisionError
| ValueError
| IndexError
| TypeError
| AttributeError
| RequestException
| HTTPError
| RuntimeError.

Inductive result (A : Type) : Type :=
| Ret (a : A)
| Raise (e : exn).
Arguments Ret {A} a.
Arguments Raise {A} e.

Definition bind {A B : Type} (m : result A) (k : A -> result B) : result B :=
  match m with
  | Ret a => k a
  | Raise e => Raise e
  end.

(** State of a [for] loop after one iteration of its body: go on with the
    next index, leave the enclosing function with a value, or raise. *)
Inductive flow (S A : Type) : Type :=
| Next (s : S)
| Return (a : A)
| Throw (e : exn).
Arguments Next {S A} s.
Arguments Return {S A} a.
Arguments Throw {S A} e.

Definition lift {S A B : Type} (m : result B) (k : B -> flow S A) : flow S A :=
  match m with
  | Ret b => k b
  | Raise e => Throw e
  end.

(** [for i in idxs: body], threading the loop state. *)
Fixpoint for_each {I S A : Type} (body : I -> S -> flow S A)
    (idxs : list I) (s : S) : flow S A :=
  match idxs with
  | [] => Next s
  | i :: rest =>
      match body i s with
      | Next s' => for_each body rest s'
      | Return a => Return a
      | Throw e => Throw e
      end
  end.

(** [range(start, stop)] *)
Definition range (start stop : nat) : list nat := seq start (stop - start).

(** [x / y] on floats *)
Definition truediv (x y : R) : result R :=
  if Req_dec_T y 0 then Raise ZeroDivisionError else Ret (x / y).

(** [math.log(x)] *)
Definition math_log (x : R) : result R :=
  if Rlt_dec 0 x then Ret (ln x) else Raise ValueError.

(** [math.sqrt(x)] *)
Definition math_sqrt (x : R) : result R :=
  if Rle_dec 0 x then Ret (R_sqrt.sqrt x) else Raise ValueError.

(** [sum(l)]: left-to-right accumulation from 0 *)
Definition sum (l : list R) : R := fold_left Rplus l 0.

(** The position an integer slice bound denotes in a sequence of length
    [n]: negative bounds count from the end, and every bound is clipped. *)
Definition clamp (i : Z) (n : nat) : nat :=
  Z.to_nat (if (i <? 0)%Z then Z.max (Z.of_nat n + i) 0
            else Z.min i (Z.of_nat n)).

(** [l[start:]] for an arbitrary integer [start] *)
Definition slice_from {A : Type} (start : Z) (l : list A) : list A :=
  skipn (clamp start (length l)) l.

(** [l[:stop]] for an arbitrary integer [stop] *)
Definition slice_to {A : Type} (stop : Z) (l : list A) : list A :=
  firstn (clamp stop (length l)) l.

(** [l[lo:hi]] for arbitrary integers [lo] and [hi] *)
Definition slice {A : Type} (lo hi : Z) (l : list A) : list A :=
  let a := clamp lo (length l) in
  let b := clamp hi (length l) in
  firstn (b - a) (skipn a l).

(** [range(0, stop, step)] *)
Definition range_step (stop : nat) (step : Z) : result (list nat) :=
  if (step =? 0)%Z then Raise ValueError
  else if (step <? 0)%Z then Ret []
  else
    let k := Z.to_nat step in
    Ret (map (fun j => (j * k)%nat) (seq 0 ((stop + k - 1) / k))).

(** A [for] loop whose body may raise. *)
Fixpoint for_result {I S : Type} (body : I -> S -> result S)
    (idxs : list I) (s : S) : result S :=
  match idxs with
  | [] => Ret s
  | i :: rest => bind (body i s) (for_result body rest)
  end.

(** [l.sort(key=key, reverse=True)].  The sort of Python is stable, also
    under [reverse=True]: the outcome is the one arrangement of [l] that is
    descending by key with equal keys in their original order, which stable
    insertion computes. *)
Fixpoint insert_desc {A : Type} (key : A -> R) (x : A) (l : list A) : list A :=
  match l with
  | [] => [x]
  | y :: rest =>
      if Rle_dec (key y) (key x) then x :: l
      else y :: insert_desc key x rest
  end.

(** [a] may stand before [b] when sorting by descending key. *)
Definition desc {A : Type} (key : A -> R) (a b : A) : Prop := key b <= key a.

Definition sort_reverse {A : Type} (key : A -> R) (l : list A) : list A :=
  fold_right (insert_desc key) [] l.

End Py.

Import Py.

Notation "x <- m ;; k" := (Py.bind m (fun x => k))
  (at level 61, m at next level, right associativity).

(** ** [src/realized.py] *)

Module Realized.

(** A close as the estimator may receive it: a float or [None]. *)
Definition close : Type := option R.

(** Body of [for i in range(1, len(closes))]; the loop state is [rets]. *)
Definition rets_body (closes : list close) (i : nat) (rets : list R)
  : flow (list R) (option R) :=
  match nth_error closes (i - 1), nth_error closes i with
  | Some c0, Some c1 =>
      match c0, c1 with
      | Some x0, Some x1 =>
          if Rle_dec x0 0 then Return None
          else if Rle_dec x1 0 then Return None
          else lift (q <- truediv x1 x0 ;; math_log q)
                    (fun r => Next (rets ++ [r]))
      | _, _ => Return None
      end
  | _, _ => Throw IndexError
  end.

Definition default_window : Z := 30.

Definition realized_vol_annualized_from_closes
    (closes : list close) (window : Z) : result (option R) :=
  if (Z.of_nat (length closes) <? window + 1)%Z then Ret None
  else
    match for_each (rets_body closes) (range 1 (length closes)) [] with
    | Return r => Ret r
    | Throw e => Raise e
    | Next rets =>
        let w := slice_from (- window) rets in
        if (Z.of_nat (length w) <? window)%Z then Ret None
        else
          mean <- truediv (Py.sum w) (INR (length w)) ;;
          var <- truediv (Py.sum (map (fun x => (x - mean) ^ 2) w))
                         (IZR (Z.of_nat (length w) - 1)) ;;
          r <- math_sqrt (var * 252) ;;
          Ret (Some r)
    end.

(** *** The estimator in the specification's words *)

(** Log-returns of consecutive closes. *)
Fixpoint log_returns (cs : list R) : list R :=
  match cs with
  | c0 :: ((c1 :: _) as tl) => ln (c1 / c0) :: log_returns tl
  | _ => []
  end.

(** The last [n] elements of a list. *)
Definition last_n {A : Type} (n : nat) (l : list A) : list A :=
  skipn (length l - n) l.

Definition total (l : list R) : R := fold_right Rplus 0 l.

Definition mean (l : list R) : R := total l / INR (length l).

(** Sample variance, divisor [n - 1]. *)
Definition sample_variance (l : list R) : R :=
  total (map (fun x => (x - mean l) ^ 2) l) / (INR (length l) - 1).

(** A close that makes a return invalid: missing or non-positive. *)
Definition bad_close (c : close) : Prop :=
  match c with
  | None => True
  | Some x => x <= 0
  end.

End Realized.

(** ** Decoded JSON, dictionaries and the provider seen through [requests] *)

Module Net.

(** Insertion-ordered dictionaries with string keys. *)
Definition dict (V : Type) : Type := list (string * V).

Fixpoint dict_get {V : Type} (k : string) (d : dict V) : option V :=
  match d with
  | [] => None
  | (k', v) :: rest => if String.eqb k k' then Some v else dict_get k rest
  end.

(** [d[k] = v]: an existing key keeps its position, a new key goes last. *)
Fixpoint dict_set {V : Type} (k : string) (v : V) (d : dict V) : dict V :=
  match d with
  | [] => [(k, v)]
  | (k', v') :: rest =>
      if String.eqb k k' then (k', v) :: rest else (k', v') :: dict_set k v rest
  end.

(** [d.update(other)] *)
Definition dict_update {V : Type} (d other : dict V) : dict V :=
  fold_left (fun acc kv => dict_set (fst kv) (snd kv) acc) other d.

(** The Python value of a decoded JSON document. *)
Inductive json : Type :=
| JNull
| JBool (b : bool)
| JNum (x : R)
| JStr (s : string)
| JArr (items : list json)
| JObj (fields : list (string * json)).

(** Truth value of a decoded JSON value in a condition. *)
Definition truthy (j : json) : bool :=
  match j with
  | JNull => false
  | JBool b => b
  | JNum x => if Req_dec_T x 0 then false else true
  | JStr s => negb (String.eqb s "")
  | JArr items => match items with [] => false | _ => true end
  | JObj fields => match fields with [] => false | _ => true end
  end.

(** [j.get(k)]: only objects have [get]; a missing key gives [None]. *)
Definition get (j : json) (k : string) : result json :=
  match j with
  | JObj fields =>
      Ret (match dict_get k fields with Some v => v | None => JNull end)
  | _ => Raise AttributeError
  end.

(** [v != "ok"] *)
Definition not_ok (v : json) : bool :=
  match v with
  | JStr s => negb (String.eqb s "ok")
  | _ => true
  end.

(** What one HTTP request comes back with: nothing (time-out, connection
    error: [requests.get] raises) or a status code and a body, [None] when the
    body is not JSON ([r.json()] raises). *)
Inductive reply : Type :=
| NoReply
| Reply (status : Z) (body : option json).

Record response : Type := { status_code : Z; payload : option json }.

(** What the program does to the outside: a request (its URL and the
    symbols it asks about) or a pause. *)
Inductive event : Type :=
| Get (url : string) (query : list string)
| Sleep (secs : R).

(** The outside world: the reply the provider gives to the n-th request, the
    number of requests sent so far and what the program did so far. *)
Record world : Type := {
  replies : nat -> reply;
  sent : nat;
  trace : list event
}.

Definition IO (A : Type) : Type := world -> result A * world.

Definition ret {A : Type} (a : A) : IO A := fun w => (Ret a, w).

Definition raise {A : Type} (e : exn) : IO A := fun w => (Raise e, w).

Definition pure {A : Type} (r : result A) : IO A := fun w => (r, w).

Definition bind {A B : Type} (m : IO A) (k : A -> IO B) : IO B :=
  fun w =>
    match m w with
    | (Ret a, w') => k a w'
    | (Raise e, w') => (Raise e, w')
    end.

(** [try: m except Exception: h] *)
Definition try_except {A : Type} (m : IO A) (h : exn -> IO A) : IO A :=
  fun w =>
    match m w with
    | (Ret a, w') => (Ret a, w')
    | (Raise e, w') => h e w'
    end.

(** [requests.get(url, ...)] *)
Definition requests_get (url : string) (query : list string) : IO response :=
  fun w =>
    let w' := {| replies := replies w; sent := S (sent w);
                 trace := trace w ++ [Get url query] |} in
    match replies w (sent w) with
    | NoReply => (Raise RequestException, w')
    | Reply st body => (Ret {| status_code := st; payload := body |}, w')
    end.

(** [r.raise_for_status()] *)
Definition raise_for_status (r : response) : result unit :=
  if ((400 <=? status_code r) && (status_code r <? 600))%Z
  then Raise HTTPError else Ret tt.

(** [r.json()] *)
Definition json_of (r : response) : result json :=
  match payload r with
  | Some j => Ret j
  | None => Raise ValueError
  end.

(** [time.sleep(secs)] *)
Definition sleep (secs : R) : IO unit :=
  fun w => (Ret tt, {| replies := replies w; sent := sent w;
                       trace := trace w ++ [Sleep secs] |}).

(** The world after [n] more requests and the events [evs]. *)
Definition advance (w : world) (n : nat) (evs : list event) : world :=
  {| replies := replies w; sent := n + sent w; trace := trace w ++ evs |}.

(** A [for] loop with effects. *)
Fixpoint for_io {I S : Type} (body : I -> S -> IO S)
    (idxs : list I) (s : S) : IO S :=
  match idxs with
  | [] => ret s
  | i :: rest => bind (body i s) (for_io body rest)
  end.

(** A [for] loop with effects whose body may [return] from the function:
    [inl] carries the loop state on, [inr] is the returned value. *)
Fixpoint for_io_return {I S A : Type} (body : I -> S -> IO (S + A))
    (idxs : list I) (s : S) : IO (S + A) :=
  match idxs with
  | [] => ret (inl s)
  | i :: rest =>
      bind (body i s)
           (fun r =>
              match r with
              | inl s' => for_io_return body rest s'
              | inr a => ret (inr a)
              end)
  end.

End Net.

Import Net.

Notation "x <~ m ;; k" := (Net.bind m (fun x => k))
  (at level 61, m at next level, right associativity).

(** ** Strings *)

Module Str.

(** ASCII white space as [str.strip] sees it. *)
Definition is_space (c : ascii) : bool :=
  let n := nat_of_ascii c in
  ((9 <=? n) && (n <=? 13) || (28 <=? n) && (n <=? 32))%nat.

Fixpoint lstrip (s : string) : string :=
  match s with
  | String c rest => if is_space c then lstrip rest else s
  | EmptyString => EmptyString
  end.

Fixpoint rstrip (s : string) : string :=
  match s with
  | String c rest =>
      match rstrip rest with
      | EmptyString => if is_space c then EmptyString else String c EmptyString
      | r => String c r
      end
  | EmptyString => EmptyString
  end.

(** [s.strip()] *)
Definition strip (s : string) : string := rstrip (lstrip s).

Definition upper_char (c : ascii) : ascii :=
  let n := nat_of_ascii c in
  if ((97 <=? n) && (n <=? 122))%nat then ascii_of_nat (n - 32) else c.

(** [s.upper()] on ASCII text *)
Fixpoint upper (s : string) : string :=
  match s with
  | String c rest => String (upper_char c) (upper rest)
  | EmptyString => EmptyString
  end.

Definition nonempty (s : string) : bool := negb (String.eqb s "").

Fixpoint chars (s : string) : list string :=
  match s with
  | String c rest => String c EmptyString :: chars rest
  | EmptyString => []
  end.

End Str.

Import Str.

(** ** [src/scan_sp500.py] *)

Module Scan.

Section Parsing.

(** [float(s)] on a string: which texts Python reads as a number is left
    open; every other conversion is fixed by [_safe_float] below. *)
Variable float_of_str : string -> option R.

Definition _safe_float (x : json) : option R :=
  match x with
  | JNull => None
  | JBool b => Some (if b then 1 else 0)
  | JNum r => Some r
  | JStr s => float_of_str s
  | JArr _ => None
  | JObj _ => None
  end.

Definition _first (v : json) : json :=
  match v with
  | JArr (x :: _) => x
  | _ => v
  end.

(** The elements a [for] or a comprehension draws from a value. *)
Definition iterate (j : json) : result (list json) :=
  match j with
  | JArr items => Ret items
  | JStr s => Ret (map JStr (chars s))
  | JObj fields => Ret (map (fun kv => JStr (fst kv)) fields)
  | _ => Raise TypeError
  end.

(** [isinstance(s, str) and s.strip()] *)
Definition is_symbol (j : json) : option string :=
  match j with
  | JStr s => if nonempty (strip s) then Some s else None
  | _ => None
  end.

Fixpoint choose {A B : Type} (f : A -> option B) (l : list A) : list B :=
  match l with
  | [] => []
  | a :: rest =>
      match f a with
      | Some b => b :: choose f rest
      | None => choose f rest
      end
  end.

Definition fetch_chain_symbols (base_url ticker : string) : IO (list string) :=
  r <~ requests_get (base_url ++ "/api/options/chain")%string [ticker] ;;
  _ <~ pure (raise_for_status r) ;;
  j <~ pure (json_of r) ;;
  s <~ pure (get j "s") ;;
  if not_ok s then ret []
  else
    o <~ pure (get j "optionSymbols") ;;
    let syms := if truthy o then o else JArr [] in
    items <~ pure (iterate syms) ;;
    ret (choose is_symbol items).

Definition fetch_spot (base_url ticker : string) : IO (option R) :=
  r <~ requests_get (base_url ++ "/api/stocks/price")%string [ticker] ;;
  _ <~ pure (raise_for_status r) ;;
  j <~ pure (json_of r) ;;
  s <~ pure (get j "s") ;;
  if not_ok s then ret None
  else
    vmid <~ pure (get j "mid") ;;
    vbid <~ pure (get j "bid") ;;
    vask <~ pure (get j "ask") ;;
    vlast <~ pure (get j "last") ;;
    match _safe_float vmid with
    | Some mid => ret (Some mid)
    | None =>
        match _safe_float vbid, _safe_float vask with
        | Some bid, Some ask => ret (Some ((bid + ask) / 2))
        | _, _ => ret (_safe_float vlast)
        end
    end.

(** One turn of the de-duplication loop; [seen] holds exactly the elements
    of [uniq], so membership is tested on [uniq]. *)
Definition dedupe_step (uniq : list string) (s : string) : list string :=
  if existsb (String.eqb s) uniq then uniq else uniq ++ [s].

(** Body of the chunk loop.  [out.update(quotes)] is the last statement of
    the [try] block, so the handler always sees [out] as the block found it. *)
Definition quotes_chunk_body (base_url : string) (chunk : list string)
    (out : dict json) : IO (dict json) :=
  try_except
    (r <~ requests_get (base_url ++ "/api/options/quotes_batch")%string chunk ;;
     _ <~ pure (raise_for_status r) ;;
     j <~ pure (json_of r) ;;
     s <~ pure (get j "s") ;;
     if not_ok s then ret out
     else
       q <~ pure (get j "quotes") ;;
       let quotes := if truthy q then q else JObj [] in
       match quotes with
       | JObj d => ret (dict_update out d)
       | _ => ret out
       end)
    (fun _ => ret out).

Definition default_chunk_size : Z := 20.

Definition fetch_quotes_batch_chunked (base_url : string)
    (symbols : list string) (chunk_size : Z) : IO (dict json) :=
  let symbols := map strip (filter nonempty symbols) in
  let uniq := fold_left dedupe_step symbols [] in
  idxs <~ pure (range_step (length uniq) chunk_size) ;;
  for_io
    (fun i out =>
       let chunk := slice (Z.of_nat i) (Z.of_nat i + chunk_size) uniq in
       quotes_chunk_body base_url chunk out)
    idxs [].

(** *** The chunked fetch in the specification's words *)

Definition quotes_url (base_url : string) : string :=
  (base_url ++ "/api/options/quotes_batch")%string.

(** The chunks a call asks for, in order. *)
Definition chunks_of (symbols : list string) (chunk_size : Z)
  : list (list string) :=
  let uniq := fold_left dedupe_step (map strip (filter nonempty symbols)) [] in
  match range_step (length uniq) chunk_size with
  | Ret idxs =>
      map (fun i => slice (Z.of_nat i) (Z.of_nat i + chunk_size) uniq) idxs
  | Raise _ => []
  end.

(** A chunk fails when its request raises (no reply, an HTTP error status,
    a body that is no JSON object) or comes back with a status other than
    ["ok"]. *)
Definition chunk_failed (r : reply) : bool :=
  match r with
  | NoReply => true
  | Reply st body =>
      ((400 <=? st) && (st <? 600))%Z
      || match body with
         | Some (JObj fields) =>
             not_ok (match dict_get "s" fields with
                     | Some v => v
                     | None => JNull
                     end)
         | _ => true
         end
  end.

(** The quotes a reply carries. *)
Definition delivered (r : reply) : dict json :=
  match r with
  | Reply _ (Some (JObj fields)) =>
      match dict_get "quotes" fields with
      | Some (JObj d) => d
      | _ => []
      end
  | _ => []
  end.

(** What one reply does to the result map: nothing, or all of its quotes. *)
Definition absorb (out : dict json) (r : reply) : dict json :=
  if chunk_failed r then out else dict_update out (delivered r).

(** The four [best_*] variables of [pick_atm_from_quotes]. *)
Record best : Type := {
  best_sym : option string;
  best_iv : option R;
  best_delta : option R;
  best_dist : option R
}.

(** [best_dist is None or dist < best_dist] *)
Definition improves (dist : R) (b : best) : bool :=
  match best_dist b with
  | None => true
  | Some d => if Rlt_dec dist d then true else false
  end.

Definition pick_body (item : string * json) (b : best) : result best :=
  let (sym, q) := item in
  vi <- get q "iv" ;;
  let iv := _safe_float (_first vi) in
  vd <- get q "delta" ;;
  let delta := _safe_float (_first vd) in
  match iv, delta with
  | Some iv', Some delta' =>
      let dist := Rabs (delta' - 0.5) in
      if improves dist b
      then Ret {| best_sym := Some sym; best_iv := Some iv';
                  best_delta := Some delta'; best_dist := Some dist |}
      else Ret b
  | _, _ => Ret b
  end.

Definition pick_atm_from_quotes (spot : R) (quotes : dict json)
  : result (option string * option R * option R) :=
  b <- for_result pick_body quotes
         {| best_sym := None; best_iv := None;
            best_delta := None; best_dist := None |} ;;
  Ret (best_sym b, best_iv b, best_delta b).

(** The dictionary returned by [get_atm_iv_for_ticker]. *)
Record atm : Type := {
  atm_ticker : string;
  atm_spot : option R;
  atm_iv : option R;
  atm_delta : option R;
  atm_option_symbol : option string;
  atm_reason : option string
}.

Definition no_pick (t : string) (spot : option R) (why : string) : atm :=
  {| atm_ticker := t; atm_spot := spot; atm_iv := None; atm_delta := None;
     atm_option_symbol := None; atm_reason := Some why |}.

(** [str(e)]; the wording is immaterial, the reason built from it is
    ["err:"] followed by it. *)
Definition exn_text (e : exn) : string :=
  match e with
  | ZeroDivisionError => "division by zero"
  | ValueError => "value error"
  | IndexError => "index out of range"
  | TypeError => "type error"
  | AttributeError => "attribute error"
  | RequestException => "request failed"
  | HTTPError => "http error"
  | RuntimeError => "runtime error"
  end.

Definition get_atm_iv_for_ticker (base_url ticker : string) (max_quotes : Z)
  : IO atm :=
  let t := upper (strip ticker) in
  try_except
    (spot <~ fetch_spot base_url t ;;
     match spot with
     | None => ret (no_pick t None "no_spot")
     | Some sp =>
         chain <~ fetch_chain_symbols base_url t ;;
         match chain with
         | [] => ret (no_pick t spot "no_chain")
         | _ =>
             let chain := slice_to max_quotes chain in
             quotes <~ fetch_quotes_batch_chunked base_url chain 20 ;;
             match quotes with
             | [] => ret (no_pick t spot "no_quotes")
             | _ =>
                 p <~ pure (pick_atm_from_quotes sp quotes) ;;
                 let '(sym, iv, delta) := p in
                 match iv with
                 | None => ret (no_pick t spot "no_iv")
                 | Some _ =>
                     ret {| atm_ticker := t; atm_spot := spot; atm_iv := iv;
                            atm_delta := delta; atm_option_symbol := sym;
                            atm_reason := None |}
                 end
             end
         end
     end)
    (fun e => ret (no_pick t None ("err:" ++ exn_text e)%string)).

(** *** The selection in the specification's words *)

(** A field of a quote after unwrapping: absent when the quote has no such
    key, when it is [null] or when it does not read as a number. *)
Definition quote_field (q : json) (k : string) : option R :=
  match q with
  | JObj fields =>
      match dict_get k fields with
      | Some v => _safe_float (_first v)
      | None => None
      end
  | _ => None
  end.

Record candidate : Type := {
  cand_sym : string;
  cand_iv : R;
  cand_delta : R
}.

(** A quote is eligible when both its iv and its delta are present. *)
Definition candidate_of (item : string * json) : option candidate :=
  match quote_field (snd item) "iv", quote_field (snd item) "delta" with
  | Some iv, Some delta =>
      Some {| cand_sym := fst item; cand_iv := iv; cand_delta := delta |}
  | _, _ => None
  end.

(** The eligible quotes of a map, in the order of the map. *)
Definition candidates (quotes : dict json) : list candidate :=
  choose candidate_of quotes.

Definition dist (c : candidate) : R := Rabs (cand_delta c - 0.5).

(** [c] is the first of the candidates at the least distance from 0.50:
    everything before it is strictly farther, nothing after it is nearer. *)
Definition closest_first (cands : list candidate) (c : candidate) : Prop :=
  exists before after,
    cands = before ++ c :: after
    /\ (forall x, In x before -> dist c < dist x)
    /\ (forall x, In x after -> dist c <= dist x).

Definition is_object (j : json) : Prop :=
  match j with
  | JObj _ => True
  | _ => False
  end.

(** The loop variables when [c] is the best quote so far. *)
Definition best_of (c : candidate) : best :=
  {| best_sym := Some (cand_sym c); best_iv := Some (cand_iv c);
     best_delta := Some (cand_delta c); best_dist := Some (dist c) |}.

Definition no_best : best :=
  {| best_sym := None; best_iv := None; best_delta := None;
     best_dist := None |}.

(** What one eligible quote does to the loop variables. *)
Definition consider (b : best) (c : candidate) : best :=
  if improves (dist c) b then best_of c else b.

(** What the loop variables hold after the candidates [seen]. *)
Definition tracks (seen : list candidate) (b : best) : Prop :=
  (seen = [] /\ b = no_best)
  \/ exists c, closest_first seen c /\ b = best_of c.

End Parsing.

Definition score_iv_gap (iv rv : option R) : result (option R * option R) :=
  match iv, rv with
  | Some i, Some r =>
      if Req_dec_T r 0 then Ret (None, None)
      else
        let gap := i - r in
        q <- truediv i r ;;
        let score := q - 1 in
        Ret (Some gap, Some score)
  | _, _ => Ret (None, None)
  end.

End Scan.

(** ** [scripts/backfill_realized_vol.py] *)

Module Backfill.

Definition API_BASE : string := "https://api.marketdata.app/v1".

(** One turn of [for attempt in range(1, 6)]; the loop state is [last_err].
    [inl] goes on to the next attempt, [inr] returns the decoded body. *)
Definition candles_attempt (url : string) (query : list string)
    (attempt : nat) (last_err : option exn) : IO (option exn + json) :=
  try_except
    (r <~ requests_get url query ;;
     if (status_code r =? 429)%Z
     then
       _ <~ sleep (1.5 * INR attempt) ;;
       ret (inl last_err)
     else
       _ <~ pure (raise_for_status r) ;;
       j <~ pure (json_of r) ;;
       ret (inr j))
    (fun e =>
       _ <~ sleep (1.0 * INR attempt) ;;
       ret (inl (Some e))).

Definition md_get_candles_daily (symbol from_date to_date : string) : IO json :=
  let url := (API_BASE ++ "/stocks/candles/D/" ++ symbol ++ "/")%string in
  r <~ for_io_return (candles_attempt url [from_date; to_date])
         (range 1 6) None ;;
  match r with
  | inr j => ret j
  | inl _ => raise RuntimeError
  end.

(** *** The retry policy in the specification's words *)

Definition candles_url (symbol : string) : string :=
  (API_BASE ++ "/stocks/candles/D/" ++ symbol ++ "/")%string.

(** The provider's rate-limit signal. *)
Definition rate_limited (r : reply) : bool :=
  match r with
  | Reply st _ => (st =? 429)%Z
  | NoReply => false
  end.

(** The body of an attempt that succeeds: a status that is no error and a
    JSON body.  [None]: the attempt fails. *)
Definition candles_ok (r : reply) : option json :=
  match r with
  | Reply st (Some j) =>
      if ((400 <=? st) && (st <? 600))%Z then None else Some j
  | _ => None
  end.

(** The pause after a failed attempt: linear in the attempt number, with
    the larger factor after a rate-limit signal. *)
Definition backoff (attempt : nat) (r : reply) : R :=
  (if rate_limited r then 1.5 else 1.0) * INR attempt.

(** What the program does over the failed attempts numbered from [first]
    whose replies were [rs]: a request and a pause each. *)
Definition retry_events (url : string) (query : list string) (first : nat)
    (rs : list reply) : list event :=
  flat_map (fun ar => [Get url query; Sleep (backoff (fst ar) (snd ar))])
           (combine (seq first (length rs)) rs).

End Backfill.

(** ** [src/main.py]: the scan endpoint *)

Module Main.

(** One element of [results]. *)
Record entry : Type := {
  ticker : string;
  spot : option R;
  expiry : option json;
  atm_strike : option json;
  iv : option R;
  rv : option R;
  iv_gap : option R;
  score : option R;
  reason : option string
}.

(** [a or b] on an optional string: [None] and the empty string are false. *)
Definition or_else (a b : option string) : option string :=
  match a with
  | Some s => if nonempty s then a else b
  | None => b
  end.

Definition _sort_key (x : entry) : R :=
  match score x with
  | None => -1
  | Some s => s
  end.

Definition scored (x : entry) : bool :=
  match score x with
  | Some _ => true
  | None => false
  end.

Definition unscored (x : entry) : bool := negb (scored x).

(** The tail of [scan_sp500], from [results.sort] to [out]. *)
Definition rank (results : list entry) (top : Z) : list entry :=
  let results := sort_reverse _sort_key results in
  let ranked := filter scored results in
  let missing := filter unscored results in
  slice_to top ranked ++ slice_to 10 missing.

(** *** The ranking in the specification's words *)

(** [a] may stand before [b] in a ranking by descending score. *)
Definition score_ge (a b : entry) : Prop :=
  match score a, score b with
  | Some x, Some y => y <= x
  | _, _ => False
  end.

(** The entry has the score [v]. *)
Definition has_score (v : R) (x : entry) : bool :=
  match score x with
  | Some s => if Req_dec_T s v then true else false
  | None => false
  end.

Record scan_reply : Type := {
  count : nat;
  ranked : list entry
}.

Section Parsing.

Variable float_of_str : string -> option R.

(** Body of [for t in tickers]; the keys [expiry] and [atm_strike] are never
    set by [get_atm_iv_for_ticker], so [atm.get] gives [None] for them. *)
Definition scan_body (base_url : string) (rv_map : dict R) (t : string)
    (results : list entry) : IO (list entry) :=
  let rv := dict_get t rv_map in
  atm <~ Scan.get_atm_iv_for_ticker float_of_str base_url t 80 ;;
  let iv := Scan.atm_iv atm in
  gs <~ pure (Scan.score_iv_gap iv rv) ;;
  let (gap, score) := gs in
  ret (results ++
       [ {| ticker := t;
            spot := Scan.atm_spot atm;
            expiry := None;
            atm_strike := None;
            iv := iv;
            rv := rv;
            iv_gap := gap;
            score := score;
            reason :=
              or_else (Scan.atm_reason atm)
                      (match iv, rv with
                       | Some _, Some _ => None
                       | _, _ => Some "missing_rv_or_iv"%string
                       end) |} ]).

(** [scan_sp500]: [rows] is the stored universe in ticker order and [rv_map]
    the stored realized volatility of today for the requested window, both
    as read from the database. *)
Definition scan_sp500 (rows : list string) (rv_map : dict R)
    (top limit : Z) (base_url : string) : IO scan_reply :=
  let tickers :=
    if (negb (limit =? 0) && (0 <? limit))%Z then slice_to limit rows
    else rows in
  results <~ for_io (scan_body base_url rv_map) tickers [] ;;
  ret {| count := length results; ranked := rank results top |}.

End Parsing.

End Main.

(** ** Sample worlds *)

Module Sample.

Local Open Scope string_scope.

Definition base : string := "http://127.0.0.1:8000".

Definition ok_body (fields : list (string * json)) : reply :=
  Reply 200 (Some (JObj (("s", JStr "ok") :: fields))).

Definition spot_reply : reply := ok_body [("mid", JNum 152)].

Definition chain_reply : reply :=
  ok_body [("optionSymbols",
            JArr [JStr "AAPL240621C150"; JStr "AAPL240621C160"])].

(** The provider answers the spot, chain and quote requests of one ticker
    with [quotes] as quote map, and nothing afterwards. *)
Definition one_ticker (quotes : reply) : world :=
  {| replies := fun n =>
       match n with
       | 0%nat => spot_reply
       | 1%nat => chain_reply
       | 2%nat => quotes
       | _ => NoReply
       end;
     sent := 0;
     trace := [] |}.

(** The quote map of the specification's selection scenario. *)
Definition scenario_quotes : dict json :=
  [("AAPL240621C150", JObj [("iv", JNum 0.32); ("delta", JNum 0.51)]);
   ("AAPL240621C160", JObj [("iv", JNum 0.30); ("delta", JNum 0.35)])].

(** A quote map whose only quote has no iv. *)
Definition quotes_without_iv : dict json :=
  [("AAPL240621C150", JObj [("iv", JNull); ("delta", JNum 0.51)])].

(** The provider fails the first request with status 503 and answers every
    later one with the scenario's quotes. *)
Definition flaky : world :=
  {| replies := fun n =>
       match n with
       | 0%nat => Reply 503 None
       | _ => ok_body [("quotes", JObj scenario_quotes)]
       end;
     sent := 0;
     trace := [] |}.

(** The provider signals its rate limit twice, then never answers. *)
Definition down : world :=
  {| replies := fun n =>
       match n with
       | 0%nat => Reply 429 None
       | 1%nat => Reply 429 None
       | _ => NoReply
       end;
     sent := 0;
     trace := [] |}.

(** A quote map with one eligible quote. *)
Definition one_quote : dict json :=
  [("AAPL240621C150", JObj [("iv", JArr [JNum 0.32]);
                            ("delta", JArr [JNum 0.51])])].

(** Stored realized volatility: a flat series has volatility 0. *)
Definition flat_rv : dict R := [("AAPL", 0)].

(** No text reads as a number. *)
Definition no_text_number : string -> option R := fun _ => None.

End Sample.

(** ** Auxiliary notions for the further properties *)

Module Aux.

(** A close in another unit of account. *)
Definition scale_close (k : R) (c : Realized.close) : Realized.close :=
  match c with
  | Some x => Some (k * x)
  | None => None
  end.

(** The symbols a quote fetch asks for: stripped, without the empty ones,
    each once, in first-seen order. *)
Definition uniq_symbols (symbols : list string) : list string :=
  fold_left Scan.dedupe_step (map strip (filter nonempty symbols)) [].

(** The keys of a dictionary, in its order. *)
Definition keys {V : Type} (d : dict V) : list string := map fst d.

(** The loop variables of the selection are set together: none of them, or
    all four. *)
Definition all_or_none (b : Scan.best) : Prop :=
  b = Scan.no_best
  \/ exists (s : string) (i d x : R),
      b = {| Scan.best_sym := Some s; Scan.best_iv := Some i;
             Scan.best_delta := Some d; Scan.best_dist := Some x |}.

(** An answer of [get_atm_iv_for_ticker] is either a pick, with spot, iv,
    delta and symbol and no reason, or a refusal, with a non-empty reason
    and neither iv, delta nor symbol. *)
Definition is_pick (a : Scan.atm) : Prop :=
  Scan.atm_reason a = None
  /\ (exists sp : R, Scan.atm_spot a = Some sp)
  /\ (exists iv : R, Scan.atm_iv a = Some iv)
  /\ (exists d : R, Scan.atm_delta a = Some d)
  /\ (exists s : string, Scan.atm_option_symbol a = Some s).

Definition is_refusal (a : Scan.atm) : Prop :=
  (exists why : string, Scan.atm_reason a = Some why /\ nonempty why = true)
  /\ Scan.atm_iv a = None
  /\ Scan.atm_delta a = None
  /\ Scan.atm_option_symbol a = None.

(** What holds of every entry the scan builds: gap and score are present
    together, and then they are [iv - rv] and [iv / rv - 1] of a present iv
    and a present non-zero rv; a missing iv or rv comes with a non-empty
    reason; expiry and strike are never filled in. *)
Definition well_formed_entry (e : Main.entry) : Prop :=
  (Main.score e = None <-> Main.iv_gap e = None)
  /\ (forall s : R,
         Main.score e = Some s ->
         exists i r : R,
           Main.iv e = Some i /\ Main.rv e = Some r /\ r <> 0
           /\ s = i / r - 1 /\ Main.iv_gap e = Some (i - r))
  /\ (Main.iv e = None \/ Main.rv e = None ->
      exists why : string,
        Main.reason e = Some why /\ nonempty why = true)
  /\ Main.expiry e = None
  /\ Main.atm_strike e = None.

(** The seconds a run spends in [time.sleep]. *)
Fixpoint pauses (evs : list event) : R :=
  match evs with
  | [] => 0
  | Sleep secs :: rest => secs + pauses rest
  | Get _ _ :: rest => pauses rest
  end.

End Aux.

(** ** [src/universe.py] and the ticker helpers of [src/main.py] *)

Module Universe.

(** A string with every character replaced by its image. *)
Fixpoint map_chars (f : ascii -> ascii) (s : string) : string :=
  match s with
  | String c rest => String (f c) (map_chars f rest)
  | EmptyString => EmptyString
  end.

Definition dot_to_dash (c : ascii) : ascii :=
  if Ascii.eqb c "."%char then "-"%char else c.

(** [s.replace(".", "-")] *)
Definition replace_dot (s : string) : string := map_chars dot_to_dash s.

(** [sorted(l)] on strings: ascending in the order of the characters'
    codes. *)
Fixpoint insert_sorted (x : string) (l : list string) : list string :=
  match l with
  | [] => [x]
  | y :: rest =>
      if String.leb x y then x :: l else y :: insert_sorted x rest
  end.

Definition sorted (l : list string) : list string :=
  fold_right insert_sorted [] l.

(** [set(l)] as far as its elements go: each one once.  Its order is of no
    account, [sorted] decides it. *)
Definition set_of (l : list string) : list string :=
  fold_left Scan.dedupe_step l [].

(** One line of [sp500.csv]: the ticker it gives, if any. *)
Definition ticker_of_line (line : string) : option string :=
  let t := upper (strip line) in
  if nonempty t then Some (replace_dot t) else None.

(** [fetch_sp500_tickers]; [file] is the text of [sp500.csv] line by line,
    or [None] when there is no such file. *)
Definition fetch_sp500_tickers (file : option (list string))
  : result (list string) :=
  match file with
  | None => Raise RuntimeError
  | Some lines => Ret (sorted (set_of (Scan.choose ticker_of_line lines)))
  end.

(** Where [_get_sp500_tickers_safe] took the tickers from. *)
Inductive source : Type :=
| FromUniverse
| CsvFallback (e : exn).

(** [_get_sp500_tickers_safe]; [csv] is what [_read_sp500_from_csv] comes
    back with when it is called. *)
Definition _get_sp500_tickers_safe (file : option (list string))
    (csv : result (list string)) : result (list string * source) :=
  match fetch_sp500_tickers file with
  | Ret t =>
      Ret (map (fun x => upper (strip (replace_dot x))) (filter nonempty t),
           FromUniverse)
  | Raise e =>
      t <- csv ;;
      Ret (t, CsvFallback e)
  end.

(** *** What a ticker of the universe looks like *)

Definition no_dot (s : string) : Prop := replace_dot s = s.

Definition is_ticker (s : string) : Prop :=
  s <> EmptyString /\ strip s = s /\ upper s = s /\ no_dot s.

(** Strictly ascending. *)
Definition before (a b : string) : Prop := String.ltb a b = true.

End Universe.

(** ** [src/scan_sp500.py]: the ratio ranking *)

Module Ratio.

(** The dictionary [compute_iv_rv_score] returns. *)
Record ratio_entry : Type := {
  ticker : string;
  spot : option R;
  iv : R;
  rv20 : R;
  iv_rv_ratio : R;
  delta : option R;
  option_symbol : option string
}.

Record scan_reply : Type := {
  count : nat;
  top10 : list ratio_entry
}.

Section Stored.

Variable float_of_str : string -> option R.

(** What [get_latest_rv20] finds for a ticker in [data/prices.db]: the
    latest stored [rv_20], or [None] (no row, a null, or any database
    error, which the function swallows). *)
Variable get_latest_rv20 : string -> option R.

Definition compute_iv_rv_score (ticker : string) (base_url : string)
  : IO (option ratio_entry) :=
  let t := upper (strip ticker) in
  atm <~ Scan.get_atm_iv_for_ticker float_of_str base_url t 80 ;;
  let iv := Scan.atm_iv atm in
  let rv := get_latest_rv20 t in
  match iv, rv with
  | Some i, Some r =>
      if Req_dec_T r 0 then ret None
      else
        q <~ pure (truediv i r) ;;
        ret (Some {| ticker := t;
                     spot := Scan.atm_spot atm;
                     iv := i;
                     rv20 := r;
                     iv_rv_ratio := q;
                     delta := Scan.atm_delta atm;
                     option_symbol := Scan.atm_option_symbol atm |})
  | _, _ => ret None
  end.

Definition default_base_url : string := "http://127.0.0.1:8000".

(** Body of [for t in tickers] in [scan]. *)
Definition scan_body (t : string) (results : list ratio_entry)
  : IO (list ratio_entry) :=
  data <~ compute_iv_rv_score t default_base_url ;;
  match data with
  | Some d => ret (results ++ [d])
  | None => ret results
  end.

(** [scan], the endpoint [/api/scan]; [file] and [csv] are what the two
    ticker sources hold. *)
Definition scan (file : option (list string)) (csv : result (list string))
  : IO scan_reply :=
  ts <~ pure (Universe._get_sp500_tickers_safe file csv) ;;
  results <~ for_io scan_body (fst ts) [] ;;
  let results := sort_reverse iv_rv_ratio results in
  ret {| count := length results; top10 := slice_to 10 results |}.

(** What holds of every entry of the ratio ranking: its rv is the stored
    one and not 0, its ratio is [iv / rv], and [score_iv_gap] on the same
    iv and rv gives the score [ratio - 1]. *)
Definition consistent (e : ratio_entry) : Prop :=
  rv20 e <> 0
  /\ get_latest_rv20 (ticker e) = Some (rv20 e)
  /\ iv_rv_ratio e = iv e / rv20 e
  /\ Scan.score_iv_gap (Some (iv e)) (Some (rv20 e))
     = Ret (Some (iv e - rv20 e), Some (iv_rv_ratio e - 1)).

End Stored.

End Ratio.

(** ** [src/main.py]: the endpoints in front of the provider *)

Module Api.

(** [sep.join(l)] *)
Fixpoint join (sep : string) (l : list string) : string :=
  match l with
  | [] => EmptyString
  | [x] => x
  | x :: rest => (x ++ sep ++ join sep rest)%string
  end.

(** [s.split(c)] for a one-character separator: every separator cuts, empty
    pieces are kept, the empty string gives one empty piece. *)
Fixpoint split (c : ascii) (s : string) : list string :=
  match s with
  | EmptyString => [EmptyString]
  | String a rest =>
      if Ascii.eqb a c then EmptyString :: split c rest
      else
        match split c rest with
        | piece :: pieces => String a piece :: pieces
        | [] => [String a EmptyString]
        end
  end.

(** Whether the character occurs in the string. *)
Fixpoint has_char (c : ascii) (s : string) : bool :=
  match s with
  | EmptyString => false
  | String a rest => Ascii.eqb a c || has_char c rest
  end.

(** [s[:n]] on a string *)
Definition prefix (n : nat) (s : string) : string := substring 0 n s.

Definition jfloat (x : option R) : json :=
  match x with
  | Some v => JNum v
  | None => JNull
  end.

Definition error_body (msg : json) : json :=
  JObj [("s"%string, JStr "error"); ("msg"%string, msg)].

Definition PROVIDER : string := "https://api.marketdata.app/v1".

Section Endpoints.

Variable float_of_str : string -> option R.

(** [os.getenv("MARKETDATA_API_KEY")] *)
Variable api_key : option string.

(** [r.text] of a response *)
Variable text_of : response -> string.

(** [not api_key] *)
Definition key_missing : bool :=
  match api_key with
  | Some k => negb (nonempty k)
  | None => true
  end.

Definition _first_float (arr : json) : option R :=
  match arr with
  | JArr (v :: _) => Scan._safe_float float_of_str v
  | _ => None
  end.

Definition stocks_price (ticker : string) : IO json :=
  if key_missing then ret (error_body (JStr "MARKETDATA_API_KEY missing"))
  else
    let t := upper (strip ticker) in
    r <~ requests_get (PROVIDER ++ "/stocks/quotes/" ++ t ++ "/")%string [t] ;;
    _ <~ pure (raise_for_status r) ;;
    j <~ pure (json_of r) ;;
    s <~ pure (get j "s") ;;
    if not_ok s
    then
      e <~ pure (get j "errmsg") ;;
      ret (error_body (if truthy e then e else JStr "quote not ok"))
    else
      vmid <~ pure (get j "mid") ;;
      vbid <~ pure (get j "bid") ;;
      vask <~ pure (get j "ask") ;;
      vlast <~ pure (get j "last") ;;
      let mid := _first_float vmid in
      let bid := _first_float vbid in
      let ask := _first_float vask in
      let last := _first_float vlast in
      let mid :=
        match mid with
        | Some _ => mid
        | None =>
            match bid, ask with
            | Some b, Some a => Some ((b + a) / 2)
            | _, _ => last
            end
        end in
      match mid with
      | None => ret (error_body (JStr "no price fields found"))
      | Some m =>
          ret (JObj [("s"%string, JStr "ok"); ("ticker"%string, JStr t);
                     ("mid"%string, JNum m); ("bid"%string, jfloat bid);
                     ("ask"%string, jfloat ask);
                     ("last"%string, jfloat last)])
      end.

(** [j.get(k, default)] *)
Definition get_or (j : json) (k : string) (default : json) : result json :=
  match j with
  | JObj fields =>
      Ret (match dict_get k fields with Some v => v | None => default end)
  | _ => Raise AttributeError
  end.

Definition options_chain (ticker : string) : IO json :=
  if key_missing then ret (error_body (JStr "MARKETDATA_API_KEY missing"))
  else
    let t := upper (strip ticker) in
    r <~ requests_get (PROVIDER ++ "/options/chain/" ++ t ++ "/")%string [t] ;;
    _ <~ pure (raise_for_status r) ;;
    j <~ pure (json_of r) ;;
    s <~ pure (get j "s") ;;
    if not_ok s
    then
      e <~ pure (get j "errmsg") ;;
      ret (error_body (if truthy e then e else JStr "chain not ok"))
    else
      o <~ pure (get_or j "optionSymbol" (JArr [])) ;;
      ret (JObj [("s"%string, JStr "ok"); ("optionSymbols"%string, o)]).

(** [[s.strip() for s in symbols.split(",") if s.strip()][:limit]] *)
Definition sym_list_of (symbols : string) (limit : Z) : list string :=
  slice_to limit
    (map strip (filter (fun s => nonempty (strip s)) (split ","%char symbols))).

(** The two lists the symbol loop of [options_quotes_batch] fills. *)
Record batch : Type := {
  quotes : dict json;
  failed : list json
}.

(** [r.status_code not in (200, 203)] *)
Definition refused (r : response) : bool :=
  negb ((status_code r =? 200)%Z || (status_code r =? 203)%Z).

Definition batch_body (sym : string) (b : batch) : IO batch :=
  try_except
    (r <~ requests_get (PROVIDER ++ "/options/quotes/" ++ sym ++ "/")%string
                       [sym] ;;
     if refused r
     then
       ret {| quotes := quotes b;
              failed := failed b ++
                [JObj [("symbol"%string, JStr sym);
                       ("http"%string, JNum (IZR (status_code r)));
                       ("text"%string, JStr (prefix 200 (text_of r)))]] |}
     else
       j <~ pure (json_of r) ;;
       s <~ pure (get j "s") ;;
       if not_ok s
       then
         ret {| quotes := quotes b;
                failed := failed b ++
                  [JObj [("symbol"%string, JStr sym); ("msg"%string, j)]] |}
       else
         ret {| quotes := dict_set sym j (quotes b); failed := failed b |})
    (fun e =>
       ret {| quotes := quotes b;
              failed := failed b ++
                [JObj [("symbol"%string, JStr sym);
                       ("err"%string, JStr (Scan.exn_text e))]] |}).

Definition default_limit : Z := 50.

Definition options_quotes_batch (symbols : string) (limit : Z) : IO json :=
  if key_missing then ret (error_body (JStr "MARKETDATA_API_KEY missing"))
  else
    match sym_list_of symbols limit with
    | [] => ret (error_body (JStr "no symbols provided"))
    | sym_list =>
        b <~ for_io batch_body sym_list {| quotes := []; failed := [] |} ;;
        ret (JObj [("s"%string, JStr "ok");
                   ("quotes"%string, JObj (quotes b));
                   ("failed"%string, JArr (failed b));
                   ("count"%string, JNum (INR (length (quotes b))))])
    end.

(** *** The endpoints in the specification's words *)

(** The price a provider quote gives: its mid, else the middle of bid and
    ask, else its last; each field read from the first element of its
    array. *)
Definition quote_price (j : json) : option R :=
  match j with
  | JObj fields =>
      let field k :=
        match dict_get k fields with
        | Some v => _first_float v
        | None => None
        end in
      match field "mid"%string with
      | Some m => Some m
      | None =>
          match field "bid"%string, field "ask"%string with
          | Some b, Some a => Some ((b + a) / 2)
          | _, _ => field "last"%string
          end
      end
  | _ => None
  end.

(** The quote the provider serves for one symbol: a body with status
    ["ok"] under HTTP 200 or 203.  [None]: the symbol fails. *)
Definition quote_served (r : reply) : option json :=
  match r with
  | Reply st (Some (JObj fields)) =>
      if ((st =? 200)%Z || (st =? 203)%Z)
         && negb (not_ok (match dict_get "s" fields with
                          | Some v => v
                          | None => JNull
                          end))
      then Some (JObj fields) else None
  | _ => None
  end.

(** The symbols of a request paired with the quotes served for them. *)
Definition served (syms : list string) (rs : list reply) : dict json :=
  Scan.choose (fun sr => match quote_served (snd sr) with
                         | Some j => Some (fst sr, j)
                         | None => None
                         end)
              (combine syms rs).

(** A symbol as the client sends it: stripped, not empty, without comma. *)
Definition plain_symbol (s : string) : Prop :=
  strip s = s /\ s <> EmptyString /\ has_char ","%char s = false.

End Endpoints.

End Api.

(** ** More sample data *)

Module MoreSamples.

Local Open Scope string_scope.

(** An entry with the given ticker and iv against a stored rv of 0.25. *)
Definition scored_entry (t : string) (i : R) : Main.entry :=
  {| Main.ticker := t; Main.spot := Some 100; Main.expiry := None;
     Main.atm_strike := None; Main.iv := Some i; Main.rv := Some 0.25;
     Main.iv_gap := Some (i - 0.25); Main.score := Some (i / 0.25 - 1);
     Main.reason := None |}.

Definition unscored_entry (t : string) : Main.entry :=
  {| Main.ticker := t; Main.spot := None; Main.expiry := None;
     Main.atm_strike := None; Main.iv := None; Main.rv := Some 0.25;
     Main.iv_gap := None; Main.score := None;
     Main.reason := Some "no_spot" |}.

(** A quote as the provider sends it. *)
Definition provider_quote : json :=
  JObj [("s", JStr "ok"); ("iv", JArr [JNum 0.32]);
        ("delta", JArr [JNum 0.51]); ("mid", JArr [JNum 4.2])].

(** The provider serves the first symbol asked for and knows no other. *)
Definition provider : world :=
  {| replies := fun n =>
       match n with
       | 0%nat => Reply 200 (Some provider_quote)
       | _ => Reply 404 None
       end;
     sent := 0;
     trace := [] |}.

(** A stock quote of the provider without a mid. *)
Definition provider_stock : world :=
  {| replies := fun _ =>
       Reply 203 (Some (JObj [("s", JStr "ok"); ("bid", JArr [JNum 151]);
                              ("ask", JArr [JNum 153]);
                              ("last", JArr [JNum 150])]));
     sent := 0;
     trace := [] |}.

(** The chain of the provider. *)
Definition provider_chain : world :=
  {| replies := fun _ =>
       Reply 200 (Some (JObj [("s", JStr "ok");
                              ("optionSymbol",
                               JArr [JStr "AAPL240621C150"; JNull;
                                     JStr "  "; JStr "AAPL240621C160"])]));
     sent := 0;
     trace := [] |}.

(** The local backend answers the next request with [body]. *)
Definition local (body : json) : world :=
  {| replies := fun _ => Reply 200 (Some body); sent := 0; trace := [] |}.

Definition some_key : option string := Some "token".

Definition no_text : response -> string := fun _ => "".

End MoreSamples.

(** * Properties *)

(** ** Sums, slices and the return loop *)

Section RealizedFacts.

Import Realized.

Lemma fold_left_Rplus_total (l : list R) (a : R) :
  fold_left Rplus l a = a + total l.
Proof.
  revert a; induction l as [|x l IH]; intros a; simpl.
  - lra.
  - rewrite IH. unfold total; simpl. lra.
Qed.

Lemma sum_total (l : list R) : Py.sum l = total l.
Proof. unfold Py.sum. rewrite fold_left_Rplus_total. lra. Qed.

Lemma total_squares_nonneg (m : R) (l : list R) :
  0 <= total (map (fun x => (x - m) ^ 2) l).
Proof.
  induction l as [|x l IH].
  - unfold total; simpl. lra.
  - change (0 <= (x - m) ^ 2 + total (map (fun y => (y - m) ^ 2) l)).
    pose proof (pow2_ge_0 (x - m)). lra.
Qed.

Lemma slice_from_last_n {A : Type} (n : Z) (l : list A) :
  (0 < n)%Z ->
  slice_from (- n) l = last_n (Z.to_nat n) l.
Proof.
  intros Hn. unfold slice_from, last_n, clamp.
  destruct (Z.ltb_spec (- n) 0) as [_|H]; [|lia].
  f_equal. lia.
Qed.

Lemma length_last_n {A : Type} (n : nat) (l : list A) :
  (n <= length l)%nat -> length (last_n n l) = n.
Proof. intros H. unfold last_n. rewrite length_skipn. lia. Qed.

Lemma length_log_returns (cs : list R) :
  length (log_returns cs) = (length cs - 1)%nat.
Proof.
  induction cs as [|c0 [|c1 tl] IH]; simpl in *; try reflexivity.
  rewrite IH. lia.
Qed.

Lemma skipn_cons_nth {A : Type} (k : nat) (l : list A) :
  (k < length l)%nat ->
  exists x, nth_error l k = Some x /\ skipn k l = x :: skipn (S k) l.
Proof.
  revert l; induction k as [|k IH]; intros [|y l] H; simpl in *; try lia.
  - exists y. split; reflexivity.
  - destruct (IH l) as [x [H1 H2]]; [lia|].
    exists x. split; [exact H1|exact H2].
Qed.

(** A turn of the loop on two valid closes appends their log-return. *)
Lemma rets_body_valid (closes : list close) (i : nat) (x0 x1 : R) rets :
  nth_error closes (i - 1) = Some (Some x0) ->
  nth_error closes i = Some (Some x1) ->
  0 < x0 -> 0 < x1 ->
  rets_body closes i rets = Next (rets ++ [ln (x1 / x0)]).
Proof.
  intros H0 H1 P0 P1. unfold rets_body. rewrite H0, H1.
  destruct (Rle_dec x0 0) as [F|_]; [lra|].
  destruct (Rle_dec x1 0) as [F|_]; [lra|].
  unfold truediv, math_log; simpl.
  destruct (Req_dec_T x0 0) as [F|_]; [lra|]. simpl.
  destruct (Rlt_dec 0 (x1 / x0)) as [_|F]; [reflexivity|].
  exfalso. apply F. apply Rdiv_lt_0_compat; assumption.
Qed.

(** A turn of the loop that meets a missing or non-positive close leaves the
    function with [None]. *)
Lemma rets_body_bad (closes : list close) (i : nat) (c0 c1 : close) rets :
  nth_error closes (i - 1) = Some c0 ->
  nth_error closes i = Some c1 ->
  bad_close c0 \/ bad_close c1 ->
  rets_body closes i rets = Return None.
Proof.
  intros H0 H1 B. unfold rets_body. rewrite H0, H1.
  destruct c0 as [x0|], c1 as [x1|]; try reflexivity.
  destruct (Rle_dec x0 0) as [_|N0]; [reflexivity|].
  destruct (Rle_dec x1 0) as [_|N1]; [reflexivity|].
  simpl in B. lra.
Qed.

(** On indices inside the series a turn never raises. *)
Lemma rets_body_total (closes : list close) (i : nat) rets :
  (1 <= i < length closes)%nat ->
  rets_body closes i rets = Return None \/
  exists r, rets_body closes i rets = Next (rets ++ [r]).
Proof.
  intros Hi.
  destruct (nth_error closes (i - 1)) as [c0|] eqn:E0.
  2:{ apply nth_error_None in E0. lia. }
  destruct (nth_error closes i) as [c1|] eqn:E1.
  2:{ apply nth_error_None in E1. lia. }
  destruct c0 as [x0|].
  2:{ left. apply (rets_body_bad _ _ None c1); simpl; auto. }
  destruct c1 as [x1|].
  2:{ left. apply (rets_body_bad _ _ (Some x0) None); simpl; auto. }
  destruct (Rle_dec x0 0) as [B0|G0].
  { left. apply (rets_body_bad _ _ (Some x0) (Some x1)); simpl; auto. }
  destruct (Rle_dec x1 0) as [B1|G1].
  { left. apply (rets_body_bad _ _ (Some x0) (Some x1)); simpl; auto. }
  right. exists (ln (x1 / x0)). apply rets_body_valid; auto; lra.
Qed.

Lemma rets_loop_valid (cs : list R) :
  Forall (fun c => 0 < c) cs ->
  forall m k acc,
    (S k + m = length cs)%nat ->
    for_each (rets_body (map Some cs)) (seq (S k) m) acc
    = Next (acc ++ log_returns (skipn k cs)).
Proof.
  intros Hpos. induction m as [|m IH]; intros k acc Hlen.
  - simpl. destruct (skipn_cons_nth k cs) as [x [_ Hs]]; [lia|].
    rewrite Hs. rewrite skipn_all2 by lia. simpl. now rewrite app_nil_r.
  - destruct (skipn_cons_nth k cs) as [x0 [N0 S0]]; [lia|].
    destruct (skipn_cons_nth (S k) cs) as [x1 [N1 S1]]; [lia|].
    cbn [seq for_each].
    rewrite (rets_body_valid _ _ x0 x1).
    + rewrite IH by lia. rewrite S0, S1. cbn [log_returns].
      rewrite <- app_assoc. reflexivity.
    + replace (S k - 1)%nat with k by lia.
      rewrite nth_error_map, N0. reflexivity.
    + rewrite nth_error_map, N1. reflexivity.
    + rewrite Forall_forall in Hpos. apply Hpos.
      eapply nth_error_In; eauto.
    + rewrite Forall_forall in Hpos. apply Hpos.
      eapply nth_error_In; eauto.
Qed.

Lemma rets_loop_bad (closes : list close) (idxs : list nat) :
  Forall (fun i => 1 <= i < length closes)%nat idxs ->
  forall i c0 c1 acc,
    In i idxs ->
    nth_error closes (i - 1) = Some c0 ->
    nth_error closes i = Some c1 ->
    bad_close c0 \/ bad_close c1 ->
    for_each (rets_body closes) idxs acc = Return None.
Proof.
  induction 1 as [|j idxs Hj Hall IH]; intros i c0 c1 acc Hin H0 H1 B.
  - destruct Hin.
  - cbn [for_each].
    destruct (rets_body_total closes j acc Hj) as [E|[r E]]; rewrite E.
    + reflexivity.
    + destruct Hin as [->|Hin].
      * rewrite (rets_body_bad _ _ c0 c1) in E by assumption. discriminate.
      * eapply IH; eauto.
Qed.

Lemma range_in_bounds (n : nat) :
  Forall (fun i => 1 <= i < n)%nat (range 1 n).
Proof.
  unfold range. apply Forall_forall. intros i Hi.
  apply in_seq in Hi. lia.
Qed.

(** Any invalid pair of neighbours anywhere in a series that is long enough
    for the window ends the call with [None]. *)
Lemma realized_vol_bad_pair (closes : list close) (window : Z) (i : nat)
    (c0 c1 : close) :
  nth_error closes i = Some c0 ->
  nth_error closes (S i) = Some c1 ->
  bad_close c0 \/ bad_close c1 ->
  realized_vol_annualized_from_closes closes window = Ret None.
Proof.
  intros H0 H1 B. unfold realized_vol_annualized_from_closes.
  destruct (Z.ltb_spec (Z.of_nat (length closes)) (window + 1)); [reflexivity|].
  assert (Hlen : (S i < length closes)%nat).
  { apply nth_error_Some. rewrite H1. discriminate. }
  rewrite (rets_loop_bad closes _ (range_in_bounds _) (S i) c0 c1); auto.
  - unfold range. apply in_seq. lia.
  - replace (S i - 1)%nat with i by lia. exact H0.
Qed.

(** The value on an all-positive series that is long enough. *)
Lemma realized_vol_valid (cs : list R) (window : Z) :
  (2 <= window)%Z ->
  (window + 1 <= Z.of_nat (length cs))%Z ->
  Forall (fun c => 0 < c) cs ->
  realized_vol_annualized_from_closes (map Some cs) window
  = Ret (Some (sqrt (sample_variance
                       (last_n (Z.to_nat window) (log_returns cs)) * 252))).
Proof.
  intros HW Hlen Hpos. unfold realized_vol_annualized_from_closes.
  rewrite length_map.
  destruct (Z.ltb_spec (Z.of_nat (length cs)) (window + 1)); [lia|].
  unfold range.
  rewrite (rets_loop_valid cs Hpos (length cs - 1) 0 []) by lia.
  cbn [app skipn].
  rewrite slice_from_last_n by lia.
  set (w := last_n (Z.to_nat window) (log_returns cs)).
  assert (Hw : length w = Z.to_nat window).
  { apply length_last_n. rewrite length_log_returns. lia. }
  cbv zeta.
  destruct (Z.ltb_spec (Z.of_nat (length w)) window); [lia|].
  assert (Hn : INR (length w) <> 0).
  { apply not_0_INR. lia. }
  unfold truediv at 1.
  destruct (Req_dec_T (INR (length w)) 0) as [F|_]; [contradiction|].
  cbn [Py.bind].
  assert (Hz : IZR (Z.of_nat (length w) - 1) = INR (length w) - 1).
  { rewrite minus_IZR, <- INR_IZR_INZ. reflexivity. }
  assert (Hn1 : INR (length w) - 1 <> 0).
  { assert (1 < INR (length w)) by (apply lt_1_INR; lia). lra. }
  unfold truediv.
  destruct (Req_dec_T (IZR (Z.of_nat (length w) - 1)) 0) as [F|_].
  { rewrite Hz in F. contradiction. }
  cbn [Py.bind].
  rewrite !sum_total, Hz.
  fold (mean w). fold (sample_variance w).
  assert (Hv : 0 <= sample_variance w).
  { unfold sample_variance. apply Rmult_le_pos.
    - apply total_squares_nonneg.
    - apply Rlt_le, Rinv_0_lt_compat.
      assert (1 < INR (length w)) by (apply lt_1_INR; lia). lra. }
  unfold math_sqrt.
  destruct (Rle_dec 0 (sample_variance w * 252)) as [_|F].
  - reflexivity.
  - exfalso. apply F. nra.
Qed.

End RealizedFacts.

(** ** The realized-volatility estimator *)

Section RealizedClaims.

Import Realized.

(** C1. For a window [W >= 2]: on every series of at least [W + 1] closes,
    all positive, [realized_vol_annualized_from_closes] returns a
    non-negative number, equal to [sqrt (252 * v)] where [v] is the sample
    variance (divisor [W - 1]) of the last [W] log-returns; on every series
    of fewer than [W + 1] closes it returns [None]. *)
Theorem realized_vol_annualized_sample_deviation (window : Z) :
  (2 <= window)%Z ->
  (forall cs : list R,
      (window + 1 <= Z.of_nat (length cs))%Z ->
      Forall (fun c => 0 < c) cs ->
      exists v : R,
        realized_vol_annualized_from_closes (map Some cs) window
        = Ret (Some v)
        /\ 0 <= v
        /\ v = sqrt (252 * sample_variance
                             (last_n (Z.to_nat window) (log_returns cs)))
        /\ length (last_n (Z.to_nat window) (log_returns cs))
           = Z.to_nat window)
  /\ (forall closes : list close,
         (Z.of_nat (length closes) < window + 1)%Z ->
         realized_vol_annualized_from_closes closes window = Ret None).
Proof.
  intros HW. split.
  - intros cs Hlen Hpos.
    exists (sqrt (sample_variance
                    (last_n (Z.to_nat window) (log_returns cs)) * 252)).
    split; [|split; [|split]].
    + apply realized_vol_valid; assumption.
    + apply sqrt_pos.
    + f_equal. apply Rmult_comm.
    + apply length_last_n. rewrite length_log_returns. lia.
  - intros closes Hlen. unfold realized_vol_annualized_from_closes.
    destruct (Z.ltb_spec (Z.of_nat (length closes)) (window + 1));
      [reflexivity|lia].
Qed.

(** The scenario of the specification: seven closes, window 3. *)
Lemma realized_vol_annualized_sample_deviation_witness :
  (exists v : R,
      realized_vol_annualized_from_closes
        (map Some [100; 101; 99; 102; 100; 98; 103]) 3 = Ret (Some v)
      /\ 0 <= v
      /\ v = sqrt (252 * sample_variance
                           (last_n 3 (log_returns
                                        [100; 101; 99; 102; 100; 98; 103])))
      /\ length (last_n 3 (log_returns [100; 101; 99; 102; 100; 98; 103]))
         = 3%nat)
  /\ realized_vol_annualized_from_closes [Some 100; Some 101; Some 99] 3
     = Ret None.
Proof.
  destruct (realized_vol_annualized_sample_deviation 3 ltac:(lia)) as [Hv Hn].
  split.
  - apply (Hv [100; 101; 99; 102; 100; 98; 103]).
    + simpl. lia.
    + repeat constructor; lra.
  - apply (Hn [Some 100; Some 101; Some 99]). simpl. lia.
Defined.

(** C5. For a window [W >= 2], a missing or non-positive close among the
    last [W + 1] closes, the ones the trailing [W] returns are made of, makes
    the call return [None]: the invalid return is not skipped. *)
Theorem bad_close_in_window_poisons (closes : list close) (window : Z)
    (i : nat) (c : close) :
  (2 <= window)%Z ->
  nth_error closes i = Some c ->
  (Z.of_nat (length closes) - (window + 1) <= Z.of_nat i)%Z ->
  bad_close c ->
  realized_vol_annualized_from_closes closes window = Ret None.
Proof.
  intros HW Hi _ Hbad.
  destruct (Z.ltb_spec (Z.of_nat (length closes)) (window + 1)) as [Hs|Hl].
  - unfold realized_vol_annualized_from_closes.
    destruct (Z.ltb_spec (Z.of_nat (length closes)) (window + 1));
      [reflexivity|lia].
  - assert (Hlt : (i < length closes)%nat).
    { apply nth_error_Some. rewrite Hi. discriminate. }
    destruct i as [|j].
    + destruct (nth_error closes 1) as [c1|] eqn:E1.
      * apply (realized_vol_bad_pair closes window 0 c c1); auto.
      * apply nth_error_None in E1. lia.
    + destruct (nth_error closes j) as [c0|] eqn:E0.
      * apply (realized_vol_bad_pair closes window j c0 c); auto.
      * apply nth_error_None in E0. lia.
Qed.

Lemma bad_close_in_window_poisons_witness :
  realized_vol_annualized_from_closes
    [Some 100; Some 101; Some 0; Some 102; Some 100] 3 = Ret None.
Proof.
  apply (bad_close_in_window_poisons _ 3 2%nat (Some 0)).
  - lia.
  - reflexivity.
  - simpl. lia.
  - simpl. lra.
Defined.

(** C6 (the code departs from it). With window 1 every all-positive series
    of at least two closes passes both length guards and the division by
    [len(w) - 1 = 0] raises [ZeroDivisionError]; no [None] is returned. *)
Theorem window_one_divides_by_zero (cs : list R) :
  (2 <= length cs)%nat ->
  Forall (fun c => 0 < c) cs ->
  realized_vol_annualized_from_closes (map Some cs) 1
  = Raise ZeroDivisionError.
Proof.
  intros Hlen Hpos. unfold realized_vol_annualized_from_closes.
  rewrite length_map.
  destruct (Z.ltb_spec (Z.of_nat (length cs)) (1 + 1)); [lia|].
  unfold range.
  rewrite (rets_loop_valid cs Hpos (length cs - 1) 0 []) by lia.
  cbn [app skipn].
  rewrite (slice_from_last_n 1) by lia.
  set (w := last_n (Z.to_nat 1) (log_returns cs)).
  assert (Hw : length w = 1%nat).
  { apply length_last_n. rewrite length_log_returns. simpl. lia. }
  cbv zeta. rewrite Hw.
  destruct (Z.ltb_spec (Z.of_nat 1) 1); [lia|].
  unfold truediv at 1.
  destruct (Req_dec_T (INR 1) 0) as [F|_].
  { rewrite INR_1 in F. lra. }
  cbn [Py.bind]. unfold truediv.
  destruct (Req_dec_T (IZR (Z.of_nat 1 - 1)) 0) as [_|F].
  - reflexivity.
  - exfalso. apply F. reflexivity.
Qed.

Lemma window_one_divides_by_zero_witness :
  realized_vol_annualized_from_closes [Some 100; Some 101] 1
  = Raise ZeroDivisionError.
Proof.
  apply (window_one_divides_by_zero [100; 101]).
  - simpl. lia.
  - repeat constructor; lra.
Defined.

(** C10. A missing or non-positive close anywhere in the series makes the
    call return [None], for every window: in general, whenever two
    neighbouring closes contain one; and in particular when the bad closes
    all lie in a prefix strictly before the last [W + 1] closes, although
    the estimate of those last [W + 1] closes alone exists. *)
Theorem bad_close_anywhere_poisons :
  (forall (closes : list close) (window : Z) (i : nat) (c0 c1 : close),
      nth_error closes i = Some c0 ->
      nth_error closes (S i) = Some c1 ->
      bad_close c0 \/ bad_close c1 ->
      realized_vol_annualized_from_closes closes window = Ret None)
  /\ (forall (pre : list close) (cs : list R) (window : Z) (c : close),
         (2 <= window)%Z ->
         Z.of_nat (length cs) = (window + 1)%Z ->
         Forall (fun x => 0 < x) cs ->
         In c pre -> bad_close c ->
         realized_vol_annualized_from_closes (pre ++ map Some cs) window
         = Ret None
         /\ exists v : R,
             realized_vol_annualized_from_closes (map Some cs) window
             = Ret (Some v)).
Proof.
  split.
  - intros closes window i c0 c1. apply realized_vol_bad_pair.
  - intros pre cs window c HW Hlen Hpos Hin Hbad. split.
    + apply In_nth_error in Hin. destruct Hin as [i Hi].
      assert (Hlt : (i < length pre)%nat).
      { apply nth_error_Some. rewrite Hi. discriminate. }
      destruct (nth_error (pre ++ map Some cs) (S i)) as [c1|] eqn:E1.
      * apply (realized_vol_bad_pair _ window i c c1); auto.
        rewrite nth_error_app1 by assumption. exact Hi.
      * apply nth_error_None in E1.
        rewrite length_app, length_map in E1. lia.
    + eexists. apply realized_vol_valid; [assumption|lia|assumption].
Qed.

Lemma bad_close_anywhere_poisons_witness :
  realized_vol_annualized_from_closes
    ([Some (-1); None] ++ map Some [100; 101; 99]) 2 = Ret None
  /\ exists v : R,
      realized_vol_annualized_from_closes (map Some [100; 101; 99]) 2
      = Ret (Some v).
Proof.
  destruct bad_close_anywhere_poisons as [_ H].
  apply (H [Some (-1); None] [100; 101; 99] 2%Z None).
  - lia.
  - reflexivity.
  - repeat constructor; lra.
  - simpl. auto.
  - exact I.
Defined.

End RealizedClaims.

(** ** Gap scoring *)

Section ScoreClaims.

Import Scan.

(** C4. [score_iv_gap] never raises; it returns [(None, None)] exactly when
    [iv] is absent, [rv] is absent or [rv = 0]; otherwise it returns
    [(iv - rv, iv / rv - 1)]; equal inputs with [rv <> 0] give [(0, 0)]. *)
Theorem score_iv_gap_contract (iv rv : option R) :
  (score_iv_gap iv rv = Ret (None, None)
   <-> iv = None \/ rv = None \/ rv = Some 0)
  /\ (forall i r : R,
         iv = Some i -> rv = Some r -> r <> 0 ->
         score_iv_gap iv rv = Ret (Some (i - r), Some (i / r - 1)))
  /\ (forall r : R,
         iv = Some r -> rv = Some r -> r <> 0 ->
         score_iv_gap iv rv = Ret (Some 0, Some 0)).
Proof.
  assert (Hval : forall i r : R, r <> 0 ->
            score_iv_gap (Some i) (Some r)
            = Ret (Some (i - r), Some (i / r - 1))).
  { intros i r Hr. unfold score_iv_gap, truediv.
    destruct (Req_dec_T r 0) as [F|_]; [contradiction|]. reflexivity. }
  split; [|split].
  - split.
    + intros H. destruct iv as [i|]; [|auto]. destruct rv as [r|]; [|auto].
      right; right. destruct (Req_dec_T r 0) as [->|Hr]; [reflexivity|].
      rewrite (Hval i r Hr) in H. discriminate.
    + intros [ -> | [ -> | -> ] ].
      * reflexivity.
      * destruct iv; reflexivity.
      * destruct iv as [i|]; [|reflexivity]. unfold score_iv_gap.
        destruct (Req_dec_T 0 0) as [_|F]; [reflexivity|contradiction].
  - intros i r -> -> Hr. apply Hval, Hr.
  - intros r -> -> Hr. rewrite (Hval r r Hr).
    do 3 f_equal; field; exact Hr.
Qed.

(** The scoring scenario of the specification, and equal inputs. *)
Lemma score_iv_gap_contract_witness :
  score_iv_gap (Some 0.35) (Some 0.25)
  = Ret (Some (0.35 - 0.25), Some (0.35 / 0.25 - 1))
  /\ score_iv_gap (Some 0.25) (Some 0.25) = Ret (Some 0, Some 0).
Proof.
  split.
  - apply (proj1 (proj2 (score_iv_gap_contract (Some 0.35) (Some 0.25)))
                   0.35 0.25); [reflexivity|reflexivity|lra].
  - apply (proj2 (proj2 (score_iv_gap_contract (Some 0.25) (Some 0.25)))
                   0.25); [reflexivity|reflexivity|lra].
Defined.

End ScoreClaims.

(** ** At-the-money selection *)

Section AtmClaims.

Import Scan.

Variable float_of_str : string -> option R.

Local Abbreviation pick_body := (Scan.pick_body float_of_str).
Local Abbreviation candidate_of := (Scan.candidate_of float_of_str).
Local Abbreviation candidates := (Scan.candidates float_of_str).

Lemma pick_body_object (sym : string) (fields : list (string * json))
    (b : best) :
  pick_body (sym, JObj fields) b
  = Ret (match candidate_of (sym, JObj fields) with
         | Some c => consider b c
         | None => b
         end).
Proof.
  unfold Scan.pick_body, Scan.candidate_of, quote_field, get, consider.
  cbn [Py.bind fst snd].
  destruct (dict_get "iv" fields) as [vi|];
    destruct (dict_get "delta" fields) as [vd|]; cbn [_first _safe_float].
  - destruct (_safe_float float_of_str (_first vi)) as [iv|];
      destruct (_safe_float float_of_str (_first vd)) as [de|];
      try reflexivity.
    unfold dist, best_of. cbn [cand_delta cand_sym cand_iv].
    destruct (improves _ b); reflexivity.
  - destruct (_safe_float float_of_str (_first vi)); reflexivity.
  - reflexivity.
  - reflexivity.
Qed.

Lemma pick_loop_candidates (quotes : dict json) :
  Forall (fun kv => is_object (snd kv)) quotes ->
  forall b,
    for_result pick_body quotes b
    = Ret (fold_left consider (candidates quotes) b).
Proof.
  induction 1 as [|[sym q] quotes Hq _ IH]; intros b.
  - reflexivity.
  - destruct q as [| | | | |fields]; try contradiction.
    cbn [for_result]. rewrite pick_body_object. cbn [Py.bind].
    rewrite IH. unfold Scan.candidates. cbn [choose].
    destruct (candidate_of (sym, JObj fields)); reflexivity.
Qed.

Lemma consider_tracks (seen : list candidate) (b : best) (c : candidate) :
  tracks seen b -> tracks (seen ++ [c]) (consider b c).
Proof.
  intros [[-> ->]|[c0 [[before [after [Hs [Hb Ha]]]] ->]]]; right.
  - exists c. split; [|reflexivity].
    exists [], []. repeat split; simpl; intros x [].
  - unfold consider, improves. cbn [best_of best_dist].
    destruct (Rlt_dec (dist c) (dist c0)) as [Hlt|Hge].
    + exists c. split; [|reflexivity].
      exists seen, []. repeat split.
      * intros x Hx. rewrite Hs in Hx.
        apply in_app_or in Hx. destruct Hx as [Hx|[<-|Hx]].
        -- specialize (Hb x Hx). lra.
        -- exact Hlt.
        -- specialize (Ha x Hx). lra.
      * intros x [].
    + exists c0. split; [|reflexivity].
      exists before, (after ++ [c]). repeat split.
      * rewrite Hs, <- app_assoc. reflexivity.
      * exact Hb.
      * intros x Hx. apply in_app_or in Hx. destruct Hx as [Hx|[<-|[]]].
        -- apply Ha, Hx.
        -- lra.
Qed.

Lemma fold_consider_tracks (cands seen : list candidate) (b : best) :
  tracks seen b ->
  tracks (seen ++ cands) (fold_left consider cands b).
Proof.
  revert seen b; induction cands as [|c cands IH]; intros seen b H.
  - rewrite app_nil_r. exact H.
  - cbn [fold_left].
    replace (seen ++ c :: cands) with ((seen ++ [c]) ++ cands)
      by (rewrite <- app_assoc; reflexivity).
    apply IH, consider_tracks, H.
Qed.

(** The selection on a map of quote objects. *)
Lemma pick_atm_closest_first (spot : R) (quotes : dict json) :
  Forall (fun kv => is_object (snd kv)) quotes ->
  (candidates quotes = [] ->
   pick_atm_from_quotes float_of_str spot quotes = Ret (None, None, None))
  /\ (candidates quotes <> [] ->
      exists c,
        closest_first (candidates quotes) c
        /\ pick_atm_from_quotes float_of_str spot quotes
           = Ret (Some (cand_sym c), Some (cand_iv c), Some (cand_delta c))).
Proof.
  intros Hobj. unfold pick_atm_from_quotes.
  rewrite (pick_loop_candidates quotes Hobj). cbn [Py.bind].
  destruct (fold_consider_tracks (candidates quotes) [] no_best)
    as [[He Hb]|[c [Hc Hb]]].
  { left; split; reflexivity. }
  - cbn [app] in He. fold no_best in Hb |- *. split.
    + intros _. rewrite Hb. reflexivity.
    + intros Hne. contradiction.
  - cbn [app] in Hc. fold no_best in Hb |- *. split.
    + intros He. rewrite He in Hc.
      destruct Hc as [before [after [Hs _]]].
      destruct before; discriminate.
    + intros _. exists c. split; [exact Hc|]. rewrite Hb. reflexivity.
Qed.


(** After a found spot, a non-empty chain and a non-empty map of quote
    objects without an eligible quote, the reason is ["no_iv"]. *)
Lemma get_atm_no_iv (spot : R) (quotes : dict json)
    (base_url ticker : string) (max_quotes : Z) (chain : list string)
    (w0 w1 w2 w3 : world) :
  Forall (fun kv => is_object (snd kv)) quotes ->
  fetch_spot float_of_str base_url (upper (strip ticker)) w0
  = (Ret (Some spot), w1) ->
  fetch_chain_symbols base_url (upper (strip ticker)) w1 = (Ret chain, w2) ->
  chain <> [] ->
  fetch_quotes_batch_chunked base_url (slice_to max_quotes chain) 20 w2
  = (Ret quotes, w3) ->
  quotes <> [] ->
  candidates quotes = [] ->
  get_atm_iv_for_ticker float_of_str base_url ticker max_quotes w0
  = (Ret (no_pick (upper (strip ticker)) (Some spot) "no_iv"), w3).
Proof.
  intros Hobj Hspot Hchain Hne Hquotes Hq Hnone.
  unfold get_atm_iv_for_ticker, try_except, Net.bind.
  rewrite Hspot, Hchain.
  destruct chain as [|s chain]; [contradiction|].
  rewrite Hquotes.
  destruct quotes as [|kv quotes]; [contradiction|].
  unfold pure.
  rewrite (proj1 (pick_atm_closest_first spot _ Hobj) Hnone).
  reflexivity.
Qed.

(** C3 (as the code has it). On a map of quote objects,
    [pick_atm_from_quotes] skips every quote whose iv or delta is absent
    and returns the eligible quote whose delta is nearest to 0.50, the first
    in map order among equally near ones; [get_atm_iv_for_ticker] reports
    ["no_iv"] when the map it fetched is non-empty and has no eligible
    quote. *)
Theorem atm_selection_closest_first (spot : R) (quotes : dict json) :
  Forall (fun kv => is_object (snd kv)) quotes ->
  (candidates quotes = [] ->
   pick_atm_from_quotes float_of_str spot quotes = Ret (None, None, None))
  /\ (candidates quotes <> [] ->
      exists c,
        closest_first (candidates quotes) c
        /\ pick_atm_from_quotes float_of_str spot quotes
           = Ret (Some (cand_sym c), Some (cand_iv c), Some (cand_delta c)))
  /\ (forall (base_url ticker : string) (max_quotes : Z)
             (chain : list string) (w0 w1 w2 w3 : world),
         fetch_spot float_of_str base_url (upper (strip ticker)) w0
         = (Ret (Some spot), w1) ->
         fetch_chain_symbols base_url (upper (strip ticker)) w1
         = (Ret chain, w2) ->
         chain <> [] ->
         fetch_quotes_batch_chunked base_url (slice_to max_quotes chain) 20 w2
         = (Ret quotes, w3) ->
         quotes <> [] ->
         candidates quotes = [] ->
         get_atm_iv_for_ticker float_of_str base_url ticker max_quotes w0
         = (Ret (no_pick (upper (strip ticker)) (Some spot) "no_iv"), w3)).
Proof.
  intros Hobj.
  destruct (pick_atm_closest_first spot quotes Hobj) as [H0 H1].
  split; [exact H0|]. split; [exact H1|].
  intros base_url ticker max_quotes chain w0 w1 w2 w3 Hs Hc Hne Hq Hn He.
  eapply get_atm_no_iv; eauto.
Qed.

End AtmClaims.

(** Running the model on a concrete input: everything is evaluated except
    the arithmetic of the reals, which [lra] settles afterwards. *)
Ltac py_run :=
  cbv -[IZR Rplus Rminus Rmult Rdiv Rinv Ropp Rabs Rle_dec Rlt_dec
        Req_dec_T Rcase_abs ln R_sqrt.sqrt INR Rle Rlt].

Ltac py_run_in H :=
  cbv -[IZR Rplus Rminus Rmult Rdiv Rinv Ropp Rabs Rle_dec Rlt_dec
        Req_dec_T Rcase_abs ln R_sqrt.sqrt INR Rle Rlt] in H.

Section AtmSamples.

Import Scan Sample.

Local Open Scope string_scope.

(** The selection scenario of the specification (the first symbol, whose
    delta 0.51 is nearer to 0.50, is picked), and a fetched map whose only
    quote lacks its iv. *)
Lemma atm_selection_closest_first_witness :
  pick_atm_from_quotes no_text_number 152 scenario_quotes
  = Ret (Some "AAPL240621C150", Some 0.32, Some 0.51)
  /\ fst (get_atm_iv_for_ticker no_text_number base "aapl" 80
            (one_ticker (ok_body [("quotes", JObj quotes_without_iv)])))
     = Ret (no_pick "AAPL" (Some 152) "no_iv").
Proof.
  split.
  - assert (Hobj : Forall (fun kv => is_object (snd kv)) scenario_quotes).
    { repeat constructor. }
    destruct (atm_selection_closest_first no_text_number 152
                scenario_quotes Hobj) as [_ [Hpick _]].
    destruct Hpick as [c [[before [after [Hs [Hb _]]]] Hp]].
    { discriminate. }
    rewrite Hp.
    destruct before as [|b0 before].
    + injection Hs as <- _. reflexivity.
    + exfalso. injection Hs as <- Hs.
      destruct before as [|b1 before].
      * injection Hs as <- _.
        specialize (Hb _ (or_introl eq_refl)).
        unfold dist, candidate_of in Hb. py_run_in Hb.
        revert Hb. unfold Rabs.
        destruct (Rcase_abs _); destruct (Rcase_abs _); lra.
      * destruct before; discriminate.
  - assert (Hobj : Forall (fun kv => is_object (snd kv)) quotes_without_iv).
    { repeat constructor. }
    destruct (atm_selection_closest_first no_text_number 152
                quotes_without_iv Hobj) as [_ [_ Hrep]].
    erewrite (Hrep base "aapl" 80%Z); try reflexivity; discriminate.
Defined.

(** C3, where the claim fails: on an empty quote map no eligible quote
    exists either, and the reason reported is ["no_quotes"]. *)
Lemma empty_quote_map_reports_no_quotes :
  candidates no_text_number [] = []
  /\ exists a : atm,
      fst (get_atm_iv_for_ticker no_text_number base "AAPL" 80
             (one_ticker (ok_body [("quotes", JObj [])])))
      = Ret a
      /\ atm_reason a = Some "no_quotes"
      /\ atm_reason a <> Some "no_iv".
Proof.
  split; [reflexivity|].
  eexists. split; [py_run; reflexivity|].
  split; [reflexivity|discriminate].
Qed.

End AtmSamples.

(** ** Stable descending sort *)

Section SortFacts.

Context {A : Type} (key : A -> R).

Lemma insert_desc_perm (x : A) (l : list A) :
  Permutation (insert_desc key x l) (x :: l).
Proof.
  induction l as [|y l IH]; cbn [insert_desc].
  - reflexivity.
  - destruct (Rle_dec (key y) (key x)).
    + reflexivity.
    + rewrite IH. apply perm_swap.
Qed.

Lemma sort_reverse_perm (l : list A) : Permutation (sort_reverse key l) l.
Proof.
  induction l as [|x l IH]; cbn [sort_reverse fold_right].
  - reflexivity.
  - fold (sort_reverse key l). rewrite insert_desc_perm. now constructor.
Qed.

Lemma insert_desc_sorted (x : A) (l : list A) :
  StronglySorted (desc key) l ->
  StronglySorted (desc key) (insert_desc key x l).
Proof.
  induction 1 as [|y l Hs IH Hy]; cbn [insert_desc].
  - constructor; constructor.
  - destruct (Rle_dec (key y) (key x)) as [Hle|Hgt].
    + constructor.
      * constructor; assumption.
      * constructor; [exact Hle|].
        eapply Forall_impl; [|exact Hy].
        intros z Hz. unfold desc in *. lra.
    + constructor; [exact IH|].
      eapply Permutation_Forall.
      * symmetry. apply insert_desc_perm.
      * constructor; [unfold desc; lra|exact Hy].
Qed.

Lemma sort_reverse_sorted (l : list A) :
  StronglySorted (desc key) (sort_reverse key l).
Proof.
  induction l as [|x l IH]; cbn [sort_reverse fold_right].
  - constructor.
  - apply insert_desc_sorted, IH.
Qed.

(** Inserting in front of a list whose keys do not exceed the new one. *)
Lemma insert_desc_front (x : A) (l : list A) :
  Forall (fun y => key y <= key x) l ->
  insert_desc key x l = x :: l.
Proof.
  intros H. destruct l as [|y l]; [reflexivity|].
  cbn [insert_desc]. inversion H; subst.
  destruct (Rle_dec (key y) (key x)); [reflexivity|contradiction].
Qed.

Lemma filter_insert_desc (p : A -> bool) (x : A) (l : list A) :
  StronglySorted (desc key) l ->
  filter p (insert_desc key x l)
  = if p x then insert_desc key x (filter p l) else filter p l.
Proof.
  induction 1 as [|y l Hs IH Hy]; cbn [insert_desc].
  - cbn [filter]. destruct (p x); reflexivity.
  - destruct (Rle_dec (key y) (key x)) as [Hle|Hgt].
    + change (filter p (x :: y :: l))
        with (if p x then x :: filter p (y :: l) else filter p (y :: l)).
      destruct (p x); [|reflexivity].
      symmetry. apply insert_desc_front.
      apply Forall_forall. intros z Hz.
      apply filter_In in Hz. destruct Hz as [[<-|Hz] _]; [exact Hle|].
      rewrite Forall_forall in Hy. specialize (Hy z Hz).
      unfold desc in Hy. lra.
    + cbn [filter]. rewrite IH. destruct (p y), (p x); try reflexivity.
      cbn [insert_desc].
      destruct (Rle_dec (key y) (key x)); [contradiction|reflexivity].
Qed.

(** Filtering commutes with the stable sort. *)
Lemma filter_sort_reverse (p : A -> bool) (l : list A) :
  filter p (sort_reverse key l) = sort_reverse key (filter p l).
Proof.
  induction l as [|x l IH]; [reflexivity|].
  cbn [sort_reverse fold_right filter]. fold (sort_reverse key l).
  rewrite filter_insert_desc by apply sort_reverse_sorted.
  rewrite IH. destruct (p x); reflexivity.
Qed.

(** Entries of one and the same key keep their order. *)
Lemma sort_reverse_same_key (v : R) (l : list A) :
  Forall (fun x => key x = v) l -> sort_reverse key l = l.
Proof.
  induction 1 as [|x l Hx Hl IH]; [reflexivity|].
  cbn [sort_reverse fold_right]. fold (sort_reverse key l). rewrite IH.
  apply insert_desc_front.
  eapply Forall_impl; [|exact Hl]. intros y Hy. cbv beta in Hy. lra.
Qed.

Lemma filter_narrow (p q : A -> bool) (l : list A) :
  (forall x, q x = true -> p x = true) ->
  filter q (filter p l) = filter q l.
Proof.
  intros H. induction l as [|x l IH]; [reflexivity|].
  cbn [filter]. destruct (p x) eqn:Ep; cbn [filter].
  - rewrite IH. reflexivity.
  - destruct (q x) eqn:Eq; [|exact IH].
    rewrite (H x Eq) in Ep. discriminate.
Qed.

End SortFacts.

Lemma slice_to_firstn {A : Type} (n : nat) (l : list A) :
  slice_to (Z.of_nat n) l = firstn n l.
Proof.
  unfold slice_to, clamp.
  destruct (Z.ltb_spec (Z.of_nat n) 0) as [H|_]; [lia|].
  destruct (Nat.le_gt_cases n (length l)) as [Hle|Hgt].
  - f_equal. lia.
  - rewrite Z.min_r by lia. rewrite Nat2Z.id.
    rewrite !firstn_all2 by lia. reflexivity.
Qed.

Lemma firstn_In {A : Type} (n : nat) (l : list A) (x : A) :
  In x (firstn n l) -> In x l.
Proof.
  intros H. rewrite <- (firstn_skipn n l). apply in_or_app. left. exact H.
Qed.

(** ** Ranking *)

Section RankClaims.

Import Main.

Lemma score_ge_of_desc (l : list entry) :
  Forall (fun x => scored x = true) l ->
  StronglySorted (desc _sort_key) l ->
  StronglySorted score_ge l.
Proof.
  intros Hsc Hs. induction Hs as [|x l Hs IH Hx].
  - constructor.
  - inversion Hsc as [|? ? Sx Sl]; subst.
    constructor; [apply IH, Sl|].
    rewrite Forall_forall in *. intros y Hy.
    specialize (Hx y Hy). specialize (Sl y Hy).
    unfold desc, _sort_key in Hx. unfold score_ge, scored in *.
    destruct (score x), (score y); try discriminate. exact Hx.
Qed.

(** C2. The list the scan endpoint returns is the scored entries, ranked by
    descending score with equal scores in their original order and cut to
    the first [top], followed by the first 10 unscored entries in their
    original order; no unscored entry stands among the scored ones, and the
    -1 that stands in for an absent score while sorting leaves no trace in
    this ranking. *)
Theorem rank_scored_then_unscored (results : list entry) (top : nat) :
  exists ranked_part missing_part : list entry,
    rank results (Z.of_nat top)
    = firstn top ranked_part ++ firstn 10 missing_part
    /\ Permutation ranked_part (filter scored results)
    /\ StronglySorted score_ge ranked_part
    /\ (forall v : R,
           filter (has_score v) ranked_part = filter (has_score v) results)
    /\ missing_part = filter unscored results
    /\ Forall (fun x => score x <> None) (firstn top ranked_part)
    /\ Forall (fun x => score x = None) (firstn 10 missing_part).
Proof.
  exists (filter scored (sort_reverse _sort_key results)),
         (filter unscored (sort_reverse _sort_key results)).
  assert (Hmiss : filter unscored (sort_reverse _sort_key results)
                  = filter unscored results).
  { rewrite filter_sort_reverse. apply (sort_reverse_same_key _ (-1)).
    apply Forall_forall. intros x Hx. apply filter_In in Hx.
    destruct Hx as [_ Hx]. unfold unscored, scored, _sort_key in *.
    destruct (score x); [discriminate|reflexivity]. }
  assert (Hsc : forall l, Forall (fun x => scored x = true) (filter scored l)).
  { intros l. apply Forall_forall. intros x Hx.
    apply filter_In in Hx. tauto. }
  repeat split.
  - unfold rank. rewrite slice_to_firstn.
    rewrite (slice_to_firstn 10). reflexivity.
  - rewrite filter_sort_reverse. apply sort_reverse_perm.
  - apply score_ge_of_desc; [apply Hsc|].
    rewrite filter_sort_reverse. apply sort_reverse_sorted.
  - intros v. rewrite filter_narrow.
    + rewrite filter_sort_reverse.
      apply (sort_reverse_same_key _ v).
      apply Forall_forall. intros x Hx. apply filter_In in Hx.
      destruct Hx as [_ Hx]. unfold has_score, _sort_key in *.
      destruct (score x) as [s|]; [|discriminate].
      destruct (Req_dec_T s v); [assumption|discriminate].
    + intros x. unfold has_score, scored.
      destruct (score x); [reflexivity|discriminate].
  - exact Hmiss.
  - apply Forall_forall. intros x Hx. apply firstn_In in Hx.
    apply filter_In in Hx. destruct Hx as [_ Hx]. unfold scored in Hx.
    destruct (score x); [discriminate|discriminate].
  - apply Forall_forall. intros x Hx. apply firstn_In in Hx.
    apply filter_In in Hx. destruct Hx as [_ Hx].
    unfold unscored, scored in Hx.
    destruct (score x); [discriminate|reflexivity].
Qed.

End RankClaims.

(** ** The chunked quote fetch *)

Section FetchClaims.

Import Scan.

Lemma advance_advance (w : world) (n m : nat) (e1 e2 : list event) :
  advance (advance w n e1) m e2 = advance w (n + m) (e1 ++ e2).
Proof.
  unfold advance. cbn [replies sent trace]. f_equal.
  - lia.
  - rewrite app_assoc. reflexivity.
Qed.

Lemma advance_none (w : world) : advance w 0 [] = w.
Proof.
  destruct w. unfold advance. cbn. rewrite app_nil_r. reflexivity.
Qed.

(** One chunk: one request, and the reply is absorbed or dropped whole. *)
Lemma quotes_chunk_body_run (base_url : string) (chunk : list string)
    (out : dict json) (w : world) :
  quotes_chunk_body base_url chunk out w
  = (Ret (absorb out (replies w (sent w))),
     advance w 1 [Get (quotes_url base_url) chunk]).
Proof.
  unfold quotes_chunk_body, try_except, Net.bind, requests_get, absorb,
    chunk_failed, delivered, quotes_url.
  destruct (replies w (sent w)) as [|st body]; [reflexivity|].
  unfold pure, raise_for_status. cbn [status_code payload].
  destruct ((400 <=? st) && (st <? 600))%Z; [reflexivity|].
  cbn [orb]. unfold json_of. cbn [payload].
  destruct body as [j|]; [|reflexivity].
  destruct j as [| | | | |fields]; try reflexivity.
  cbn [get].
  destruct (not_ok _); [reflexivity|].
  destruct (dict_get "quotes" fields) as [q|]; [|reflexivity].
  destruct q as [|b|x|s|items|d]; cbn [truthy].
  - reflexivity.
  - destruct b; reflexivity.
  - destruct (Req_dec_T x 0); reflexivity.
  - destruct (negb _); reflexivity.
  - destruct items; reflexivity.
  - destruct d; reflexivity.
Qed.

Lemma quotes_loop_run (base_url : string) (chunk_at : nat -> list string)
    (idxs : list nat) :
  forall (out : dict json) (w : world),
    for_io (fun i out => quotes_chunk_body base_url (chunk_at i) out)
           idxs out w
    = (Ret (fold_left absorb
              (map (replies w) (seq (sent w) (length idxs))) out),
       advance w (length idxs)
         (map (fun i => Get (quotes_url base_url) (chunk_at i)) idxs)).
Proof.
  induction idxs as [|i idxs IH]; intros out w.
  - cbn. rewrite advance_none. reflexivity.
  - cbn [for_io]. unfold Net.bind at 1.
    rewrite quotes_chunk_body_run. rewrite IH.
    rewrite advance_advance. reflexivity.
Qed.

Lemma fold_absorb_delivered (rs : list reply) :
  forall out : dict json,
    fold_left absorb rs out
    = fold_left dict_update
        (map delivered (filter (fun r => negb (chunk_failed r)) rs)) out.
Proof.
  induction rs as [|r rs IH]; intros out; [reflexivity|].
  cbn [fold_left filter]. rewrite IH. unfold absorb.
  destruct (chunk_failed r); reflexivity.
Qed.

(** The whole fetch: one request per chunk, no pause, never an exception;
    the result merges, in order, the quotes of the chunks that did not
    fail. *)
Lemma fetch_quotes_run (base_url : string) (symbols : list string)
    (chunk_size : Z) (w : world) :
  (0 < chunk_size)%Z ->
  fetch_quotes_batch_chunked base_url symbols chunk_size w
  = (Ret (fold_left dict_update
            (map delivered
               (filter (fun r => negb (chunk_failed r))
                  (map (replies w)
                     (seq (sent w)
                        (length (chunks_of symbols chunk_size))))))
            []),
     advance w (length (chunks_of symbols chunk_size))
       (map (Get (quotes_url base_url)) (chunks_of symbols chunk_size))).
Proof.
  intros Hk. unfold fetch_quotes_batch_chunked, chunks_of, range_step.
  destruct (Z.eqb_spec chunk_size 0) as [F|_]; [lia|].
  destruct (Z.ltb_spec chunk_size 0) as [F|_]; [lia|].
  unfold Net.bind, pure.
  set (uniq := fold_left dedupe_step (map strip (filter nonempty symbols)) []).
  set (idxs := map _ (seq 0 _)).
  rewrite (quotes_loop_run base_url
             (fun i => slice (Z.of_nat i) (Z.of_nat i + chunk_size) uniq)).
  rewrite fold_absorb_delivered, length_map, map_map. reflexivity.
Qed.

(** C7. For a positive chunk size the fetch never raises and sends one
    request per chunk whatever the replies are; a chunk whose request raises
    or comes back with a non-ok status leaves the result map as it was, and
    every other chunk merges all the quotes of its reply: the result is the
    merge, in order, of the quotes of the chunks that did not fail. *)
Theorem chunk_failures_are_isolated (base_url : string)
    (symbols : list string) (chunk_size : Z) (w : world) :
  (0 < chunk_size)%Z ->
  let chunks := chunks_of symbols chunk_size in
  let rs := map (replies w) (seq (sent w) (length chunks)) in
  exists w' : world,
    fetch_quotes_batch_chunked base_url symbols chunk_size w
    = (Ret (fold_left absorb rs []), w')
    /\ sent w' = (length chunks + sent w)%nat
    /\ fold_left absorb rs []
       = fold_left dict_update
           (map delivered (filter (fun r => negb (chunk_failed r)) rs)) []
    /\ (forall (out : dict json) (r : reply),
           chunk_failed r = true -> absorb out r = out)
    /\ (forall (out : dict json) (r : reply),
           chunk_failed r = false ->
           absorb out r = dict_update out (delivered r)).
Proof.
  intros Hk chunks rs.
  exists (advance w (length chunks)
            (map (Get (quotes_url base_url)) chunks)).
  split; [|split; [|split; [|split]]].
  - rewrite fetch_quotes_run by exact Hk.
    rewrite <- fold_absorb_delivered. reflexivity.
  - reflexivity.
  - apply fold_absorb_delivered.
  - intros out r H. unfold absorb. rewrite H. reflexivity.
  - intros out r H. unfold absorb. rewrite H. reflexivity.
Qed.

End FetchClaims.

(** ** Retries *)

Section RetryClaims.

Import Scan Backfill.

Variables (url : string) (query : list string).

(** One attempt: a request; then the body is returned, or a pause follows
    and the loop goes on. *)
Lemma candles_attempt_ok (attempt : nat) (last_err : option exn) (w : world)
    (j : json) :
  candles_ok (replies w (sent w)) = Some j ->
  candles_attempt url query attempt last_err w
  = (Ret (inr j), advance w 1 [Get url query]).
Proof.
  unfold candles_ok, candles_attempt, try_except, Net.bind, requests_get.
  destruct (replies w (sent w)) as [|st body]; [discriminate|].
  destruct body as [j'|]; [|discriminate].
  destruct ((400 <=? st) && (st <? 600))%Z eqn:E; [discriminate|].
  intros [= ->]. cbn [status_code].
  destruct (Z.eqb_spec st 429) as [->|_]; [discriminate|].
  unfold pure, raise_for_status. cbn [status_code]. rewrite E.
  reflexivity.
Qed.

Lemma candles_attempt_fail (attempt : nat) (last_err : option exn)
    (w : world) :
  candles_ok (replies w (sent w)) = None ->
  exists err : option exn,
    candles_attempt url query attempt last_err w
    = (Ret (inl err),
       advance w 1 [Get url query;
                    Sleep (backoff attempt (replies w (sent w)))]).
Proof.
  unfold candles_ok, candles_attempt, try_except, Net.bind, requests_get,
    backoff, rate_limited, advance, sleep.
  destruct (replies w (sent w)) as [|st body]; intros H.
  - eexists. cbn [replies sent trace]. rewrite <- app_assoc. reflexivity.
  - cbn [status_code]. destruct (Z.eqb_spec st 429) as [->|Hne].
    + eexists. cbn [replies sent trace]. rewrite <- app_assoc. reflexivity.
    + unfold pure, raise_for_status, json_of. cbn [status_code payload].
      destruct ((400 <=? st) && (st <? 600))%Z.
      * eexists. cbn [replies sent trace]. rewrite <- app_assoc.
        reflexivity.
      * destruct body as [j|]; [discriminate|].
        eexists. cbn [replies sent trace]. rewrite <- app_assoc.
        reflexivity.
Qed.

Lemma retry_events_cons (first : nat) (r : reply) (rs : list reply) :
  retry_events url query first (r :: rs)
  = [Get url query; Sleep (backoff first r)]
    ++ retry_events url query (S first) rs.
Proof. reflexivity. Qed.

(** Attempts that all fail. *)
Lemma candles_loop_fail (n : nat) :
  forall (first : nat) (last_err : option exn) (w : world),
    Forall (fun r => candles_ok r = None)
           (map (replies w) (seq (sent w) n)) ->
    exists err : option exn,
      for_io_return (candles_attempt url query) (seq first n) last_err w
      = (Ret (inl err),
         advance w n
           (retry_events url query first
              (map (replies w) (seq (sent w) n)))).
Proof.
  induction n as [|n IH]; intros first last_err w Hall.
  - exists last_err. cbn. rewrite advance_none. reflexivity.
  - cbn [seq map] in Hall. inversion Hall as [|? ? H0 Hrest]; subst.
    destruct (candles_attempt_fail first last_err w H0) as [e1 E1].
    specialize (IH (S first) e1
                  (advance w 1 [Get url query;
                                Sleep (backoff first (replies w (sent w)))])).
    destruct (IH Hrest) as [e2 E2].
    exists e2. cbn [seq for_io_return]. unfold Net.bind at 1.
    rewrite E1, E2. rewrite advance_advance.
    cbn [seq map]. rewrite retry_events_cons. reflexivity.
Qed.

(** Failed attempts followed by one that succeeds. *)
Lemma candles_loop_ok (n : nat) :
  forall (first more : nat) (last_err : option exn) (w : world) (j : json),
    Forall (fun r => candles_ok r = None)
           (map (replies w) (seq (sent w) n)) ->
    candles_ok (replies w (n + sent w)) = Some j ->
    for_io_return (candles_attempt url query) (seq first (n + S more))
                  last_err w
    = (Ret (inr j),
       advance w (S n)
         (retry_events url query first (map (replies w) (seq (sent w) n))
          ++ [Get url query])).
Proof.
  induction n as [|n IH]; intros first more last_err w j Hall Hok.
  - cbn [Nat.add seq for_io_return]. unfold Net.bind.
    rewrite (candles_attempt_ok first last_err w j Hok). reflexivity.
  - cbn [seq map] in Hall. inversion Hall as [|? ? H0 Hrest]; subst.
    destruct (candles_attempt_fail first last_err w H0) as [e1 E1].
    cbn [Nat.add seq for_io_return]. unfold Net.bind at 1. rewrite E1.
    rewrite (IH (S first) more e1
               (advance w 1 [Get url query;
                             Sleep (backoff first (replies w (sent w)))])
               j Hrest).
    + rewrite advance_advance. cbn [seq map].
      rewrite retry_events_cons, <- app_assoc.
      reflexivity.
    + unfold advance. cbn [replies sent].
      replace (n + (1 + sent w))%nat with (S n + sent w)%nat by lia.
      exact Hok.
Qed.

End RetryClaims.

Section RetryPolicy.

Import Scan Backfill.

Lemma md_get_candles_daily_ok (symbol from_date to_date : string)
    (n : nat) (w : world) (j : json) :
  (n < 5)%nat ->
  Forall (fun r => candles_ok r = None) (map (replies w) (seq (sent w) n)) ->
  candles_ok (replies w (n + sent w)) = Some j ->
  md_get_candles_daily symbol from_date to_date w
  = (Ret j,
     advance w (S n)
       (retry_events (candles_url symbol) [from_date; to_date] 1
          (map (replies w) (seq (sent w) n))
        ++ [Get (candles_url symbol) [from_date; to_date]])).
Proof.
  intros Hn Hall Hok. unfold md_get_candles_daily, range.
  replace (6 - 1)%nat with (n + S (4 - n))%nat by lia.
  unfold Net.bind. fold (candles_url symbol).
  rewrite (candles_loop_ok _ _ n 1 (4 - n) None w j Hall Hok).
  reflexivity.
Qed.

Lemma md_get_candles_daily_gives_up (symbol from_date to_date : string)
    (w : world) :
  Forall (fun r => candles_ok r = None) (map (replies w) (seq (sent w) 5)) ->
  md_get_candles_daily symbol from_date to_date w
  = (Raise RuntimeError,
     advance w 5
       (retry_events (candles_url symbol) [from_date; to_date] 1
          (map (replies w) (seq (sent w) 5)))).
Proof.
  intros Hall. unfold md_get_candles_daily, range.
  change (6 - 1)%nat with 5%nat.
  unfold Net.bind. fold (candles_url symbol).
  destruct (candles_loop_fail (candles_url symbol) [from_date; to_date]
              5 1 None w Hall) as [err E].
  rewrite E. reflexivity.
Qed.

(** C8 (as the code has it). The candle fetch [md_get_candles_daily] makes
    at most 5 attempts: after each failed attempt it pauses [backoff], which
    is the attempt number times 1.0, or times 1.5 after a rate-limit signal,
    and returns the body of the first attempt that succeeds; after 5 failed
    attempts it raises and the ticker is skipped.  The quote fetch sends
    each chunk once and never pauses, whatever the replies. *)
Theorem candle_fetch_retries_quote_fetch_does_not :
  (forall (symbol from_date to_date : string) (n : nat) (w : world)
          (j : json),
      (n < 5)%nat ->
      Forall (fun r => candles_ok r = None)
             (map (replies w) (seq (sent w) n)) ->
      candles_ok (replies w (n + sent w)) = Some j ->
      md_get_candles_daily symbol from_date to_date w
      = (Ret j,
         advance w (S n)
           (retry_events (candles_url symbol) [from_date; to_date] 1
              (map (replies w) (seq (sent w) n))
            ++ [Get (candles_url symbol) [from_date; to_date]])))
  /\ (forall (symbol from_date to_date : string) (w : world),
         Forall (fun r => candles_ok r = None)
                (map (replies w) (seq (sent w) 5)) ->
         md_get_candles_daily symbol from_date to_date w
         = (Raise RuntimeError,
            advance w 5
              (retry_events (candles_url symbol) [from_date; to_date] 1
                 (map (replies w) (seq (sent w) 5)))))
  /\ (forall (attempt : nat) (st : Z) (body : option json),
         backoff attempt (Reply 429 body) = 1.5 * INR attempt
         /\ (st <> 429%Z -> backoff attempt (Reply st body) = 1.0 * INR attempt)
         /\ backoff attempt NoReply = 1.0 * INR attempt)
  /\ (forall (base_url : string) (symbols : list string) (chunk_size : Z)
             (w : world),
         (0 < chunk_size)%Z ->
         snd (fetch_quotes_batch_chunked base_url symbols chunk_size w)
         = advance w (length (chunks_of symbols chunk_size))
             (map (Get (quotes_url base_url))
                  (chunks_of symbols chunk_size))).
Proof.
  split; [|split; [|split]].
  - intros. apply md_get_candles_daily_ok; assumption.
  - intros. apply md_get_candles_daily_gives_up; assumption.
  - intros attempt st body. unfold backoff, rate_limited.
    split; [reflexivity|split; [|reflexivity]].
    intros Hne. destruct (Z.eqb_spec st 429); [contradiction|reflexivity].
  - intros base_url symbols chunk_size w Hk.
    rewrite fetch_quotes_run by exact Hk. reflexivity.
Qed.

End RetryPolicy.

Section RetrySamples.

Import Scan Backfill Sample.

Local Open Scope string_scope.

(** A provider that fails once: the candle fetch pauses and asks again.  A
    provider that is down: five requests, five pauses, then the error.  The
    quote fetch of three symbols in chunks of two: two requests. *)
Lemma candle_fetch_retries_quote_fetch_does_not_witness :
  (exists j : json,
      md_get_candles_daily "AAPL" "2024-01-02" "2024-06-28" flaky
      = (Ret j,
         advance flaky 2
           [Get (candles_url "AAPL") ["2024-01-02"; "2024-06-28"];
            Sleep (backoff 1 (Reply 503 None));
            Get (candles_url "AAPL") ["2024-01-02"; "2024-06-28"]]))
  /\ md_get_candles_daily "AAPL" "2024-01-02" "2024-06-28" down
     = (Raise RuntimeError,
        advance down 5
          (retry_events (candles_url "AAPL") ["2024-01-02"; "2024-06-28"] 1
             [Reply 429 None; Reply 429 None; NoReply; NoReply; NoReply]))
  /\ backoff 2 (Reply 500 None) = 1.0 * INR 2
  /\ trace (snd (fetch_quotes_batch_chunked base ["A"; "B"; "C"] 2 flaky))
     = [Get (quotes_url base) ["A"; "B"]; Get (quotes_url base) ["C"]].
Proof.
  destruct candle_fetch_retries_quote_fetch_does_not
    as [Hok [Hfail [Hback Hquote]]].
  split; [|split; [|split]].
  - eexists.
    apply (Hok "AAPL" "2024-01-02" "2024-06-28" 1%nat flaky).
    + lia.
    + repeat constructor.
    + reflexivity.
  - apply (Hfail "AAPL" "2024-01-02" "2024-06-28" down).
    repeat constructor.
  - apply (proj1 (proj2 (Hback 2%nat 500%Z None))). discriminate.
  - rewrite (Hquote base ["A"; "B"; "C"] 2%Z flaky) by lia. reflexivity.
Defined.

(** C8, where the claim fails: the only chunk of a quote fetch gets a 503;
    the chunk is skipped after this one request, without a pause, although
    the next request would have been answered with the quotes. *)
Lemma failed_quote_chunk_is_not_retried :
  fetch_quotes_batch_chunked base ["AAPL240621C150"] 20 flaky
  = (Ret [],
     advance flaky 1 [Get (quotes_url base) ["AAPL240621C150"]])
  /\ chunk_failed (replies flaky 0) = true
  /\ chunk_failed (replies flaky 1) = false
  /\ delivered (replies flaky 1) = scenario_quotes.
Proof.
  repeat split.
Qed.

End RetrySamples.

Section FetchSamples.

Import Scan Sample.

Local Open Scope string_scope.

(** Three symbols in chunks of two: the first chunk gets a 503 and leaves
    nothing, the second chunk is still asked for and its quotes are all
    there. *)
Lemma chunk_failures_are_isolated_witness :
  exists w' : world,
    fetch_quotes_batch_chunked base ["A"; "B"; "C"] 2 flaky
    = (Ret scenario_quotes, w')
    /\ sent w' = 2%nat.
Proof.
  destruct (chunk_failures_are_isolated base ["A"; "B"; "C"] 2 flaky)
    as [w' [Hrun [Hsent _]]].
  - lia.
  - exists w'. split; [exact Hrun|exact Hsent].
Defined.

End FetchSamples.

(** ** Reasons in the scan result *)

Section ReasonClaims.

Import Scan Main Sample.

Local Open Scope string_scope.

(** A missing iv or a missing rv always gets a reason. *)
Lemma reason_when_value_missing (atm_reason : option string)
    (iv rv : option R) :
  iv = None \/ rv = None ->
  or_else atm_reason
          (match iv, rv with
           | Some _, Some _ => None
           | _, _ => Some "missing_rv_or_iv"
           end) <> None.
Proof.
  intros H. unfold or_else.
  assert (E : match iv, rv with
              | Some _, Some _ => None
              | _, _ => Some "missing_rv_or_iv"
              end = Some "missing_rv_or_iv").
  { destruct H as [-> | ->]; [reflexivity|destruct iv; reflexivity]. }
  rewrite E. destruct atm_reason as [s|]; [|discriminate].
  destruct (nonempty s); discriminate.
Qed.

(** C9 (the code departs from it). A ticker whose stored realized
    volatility is 0 and whose ATM quote is found gets an entry with an absent
    score and no reason: [score_iv_gap] treats [rv = 0] as absent, the
    reason only looks at missing values. *)
Theorem zero_rv_gives_absent_score_without_reason :
  exists e : entry,
    fst (scan_sp500 no_text_number ["AAPL"] flat_rv 50 0 base
           (one_ticker (ok_body [("quotes", JObj one_quote)])))
    = Ret {| count := 1; ranked := [e] |}
    /\ iv e = Some 0.32
    /\ rv e = Some 0
    /\ score e = None
    /\ reason e = None.
Proof.
  eexists. split.
  - py_run. destruct (Req_dec_T 0 0) as [_|F]; [reflexivity|contradiction].
  - repeat split.
Qed.

End ReasonClaims.

(** * Further properties of the code *)

(** ** The estimator beyond its documented range *)

Section RealizedMore.

Import Realized Aux.

Lemma for_each_ext {I S A : Type} (f g : I -> S -> flow S A)
    (idxs : list I) :
  (forall i s, In i idxs -> f i s = g i s) ->
  forall s, for_each f idxs s = for_each g idxs s.
Proof.
  induction idxs as [|i idxs IH]; intros H s; [reflexivity|].
  cbn [for_each]. rewrite (H i s (or_introl eq_refl)).
  destruct (g i s); try reflexivity.
  apply IH. intros j s' Hj. apply H. right. exact Hj.
Qed.

Lemma rets_body_scale (k : R) (closes : list close) (i : nat)
    (rets : list R) :
  0 < k ->
  rets_body (map (scale_close k) closes) i rets = rets_body closes i rets.
Proof.
  intros Hk. unfold rets_body. rewrite !nth_error_map.
  destruct (nth_error closes (i - 1)) as [c0|]; [|reflexivity].
  destruct (nth_error closes i) as [c1|]; [|reflexivity].
  cbn [option_map].
  destruct c0 as [x0|], c1 as [x1|]; try reflexivity. cbn [scale_close].
  destruct (Rle_dec x0 0) as [B0|G0].
  { destruct (Rle_dec (k * x0) 0) as [_|F]; [reflexivity|]. exfalso. nra. }
  destruct (Rle_dec (k * x0) 0) as [F|_]; [exfalso; nra|].
  destruct (Rle_dec x1 0) as [B1|G1].
  { destruct (Rle_dec (k * x1) 0) as [_|F]; [reflexivity|]. exfalso. nra. }
  destruct (Rle_dec (k * x1) 0) as [F|_]; [exfalso; nra|].
  unfold truediv.
  destruct (Req_dec_T (k * x0) 0) as [F|_]; [exfalso; nra|].
  destruct (Req_dec_T x0 0) as [F|_]; [exfalso; lra|].
  cbn [Py.bind].
  replace (k * x1 / (k * x0)) with (x1 / x0) by (field; lra).
  reflexivity.
Qed.

(** X1. Multiplying every close by one positive factor (a change of currency or
    a split adjustment of the whole series) changes nothing: the same
    estimate, the same [None], the same exception, for every window and
    every series, missing closes included. *)
Theorem realized_vol_scale_invariant (k : R) (closes : list close)
    (window : Z) :
  0 < k ->
  realized_vol_annualized_from_closes (map (scale_close k) closes) window
  = realized_vol_annualized_from_closes closes window.
Proof.
  intros Hk. unfold realized_vol_annualized_from_closes.
  rewrite length_map.
  rewrite (for_each_ext (rets_body (map (scale_close k) closes))
             (rets_body closes)).
  - reflexivity.
  - intros i s _. apply rets_body_scale, Hk.
Qed.

Lemma realized_vol_scale_invariant_witness :
  realized_vol_annualized_from_closes
    [Some (2 * 100); Some (2 * 101); None; Some (2 * -3)] 2
  = realized_vol_annualized_from_closes
      [Some 100; Some 101; None; Some (-3)] 2.
Proof.
  apply (realized_vol_scale_invariant 2
           [Some 100; Some 101; None; Some (-3)] 2).
  lra.
Defined.

Lemma log_returns_flat_succ (c : R) (n : nat) :
  c <> 0 -> log_returns (repeat c (S n)) = repeat 0 n.
Proof.
  intros Hc. induction n as [|n IH]; [reflexivity|].
  change (repeat c (S (S n))) with (c :: repeat c (S n)).
  change (log_returns (c :: repeat c (S n)))
    with (ln (c / c) :: log_returns (repeat c (S n))).
  rewrite IH. replace (c / c) with 1 by (field; exact Hc). rewrite ln_1.
  reflexivity.
Qed.

Lemma log_returns_flat (c : R) (n : nat) :
  c <> 0 -> log_returns (repeat c n) = repeat 0 (n - 1).
Proof.
  intros Hc. destruct n as [|n]; [reflexivity|].
  rewrite log_returns_flat_succ by exact Hc.
  replace (S n - 1)%nat with n by lia. reflexivity.
Qed.

Lemma skipn_repeat {A : Type} (a : A) (k n : nat) :
  skipn k (repeat a n) = repeat a (n - k).
Proof.
  revert n; induction k as [|k IH]; intros [|n]; try reflexivity.
  cbn [repeat skipn]. apply IH.
Qed.

Lemma total_repeat_zero (n : nat) : total (repeat 0 n) = 0.
Proof.
  induction n as [|n IH]; unfold total in *; simpl; [reflexivity|].
  rewrite IH. lra.
Qed.

Lemma sample_variance_zeros (n : nat) : sample_variance (repeat 0 n) = 0.
Proof.
  unfold sample_variance, mean. rewrite total_repeat_zero.
  replace (0 / INR (length (repeat 0 n))) with 0
    by (unfold Rdiv; rewrite Rmult_0_l; reflexivity).
  assert (E : map (fun x => (x - 0) ^ 2) (repeat 0 n) = repeat 0 n).
  { induction n as [|n IH]; [reflexivity|].
    cbn [repeat map]. rewrite IH. f_equal. lra. }
  rewrite E, total_repeat_zero. unfold Rdiv. apply Rmult_0_l.
Qed.

(** X2. A flat series, every close the same positive price, has realized
    volatility exactly 0. *)
Theorem realized_vol_flat_series (c : R) (n : nat) (window : Z) :
  0 < c ->
  (2 <= window)%Z ->
  (window + 1 <= Z.of_nat n)%Z ->
  realized_vol_annualized_from_closes (repeat (Some c) n) window
  = Ret (Some 0).
Proof.
  intros Hc HW Hn.
  replace (repeat (Some c) n) with (map Some (repeat c n))
    by apply map_repeat.
  rewrite realized_vol_valid.
  - rewrite log_returns_flat by lra.
    unfold last_n. rewrite skipn_repeat, sample_variance_zeros.
    rewrite Rmult_0_l, sqrt_0. reflexivity.
  - exact HW.
  - rewrite repeat_length. exact Hn.
  - apply Forall_forall. intros x Hx. apply repeat_spec in Hx.
    subst. exact Hc.
Qed.

Lemma realized_vol_flat_series_witness :
  realized_vol_annualized_from_closes (repeat (Some 100) 21) 20
  = Ret (Some 0).
Proof.
  apply (realized_vol_flat_series 100 21 20); [lra|lia|simpl; lia].
Defined.


Lemma log_returns_app (pre : list R) (c : R) (cs : list R) :
  log_returns (pre ++ c :: cs)
  = log_returns (pre ++ [c]) ++ log_returns (c :: cs).
Proof.
  induction pre as [|p pre IH]; [reflexivity|].
  destruct pre as [|q pre].
  - reflexivity.
  - change (log_returns ((p :: q :: pre) ++ c :: cs))
      with (ln (q / p) :: log_returns ((q :: pre) ++ c :: cs)).
    rewrite IH. reflexivity.
Qed.

Lemma last_n_app {A : Type} (n : nat) (l1 l2 : list A) :
  (n <= length l2)%nat -> last_n n (l1 ++ l2) = last_n n l2.
Proof.
  intros H. unfold last_n. rewrite length_app, skipn_app.
  rewrite skipn_all2 by lia. cbn [app]. f_equal. lia.
Qed.

(** X3. On valid closes only the last [W + 1] of them count: older valid
    closes in front of the series leave the estimate as it is. *)
Theorem realized_vol_depends_on_window_only (pre cs : list R) (window : Z) :
  (2 <= window)%Z ->
  (window + 1 <= Z.of_nat (length cs))%Z ->
  Forall (fun c => 0 < c) pre ->
  Forall (fun c => 0 < c) cs ->
  realized_vol_annualized_from_closes (map Some (pre ++ cs)) window
  = realized_vol_annualized_from_closes (map Some cs) window.
Proof.
  intros HW Hlen Hpre Hcs.
  rewrite !realized_vol_valid; try assumption.
  - destruct cs as [|c cs]; [simpl in Hlen; lia|].
    rewrite log_returns_app, last_n_app; [reflexivity|].
    rewrite length_log_returns. simpl length in *. lia.
  - rewrite length_app. lia.
  - apply Forall_app. split; assumption.
Qed.

Lemma realized_vol_depends_on_window_only_witness :
  realized_vol_annualized_from_closes
    (map Some ([250; 3] ++ [100; 101; 99])) 2
  = realized_vol_annualized_from_closes (map Some [100; 101; 99]) 2.
Proof.
  apply (realized_vol_depends_on_window_only [250; 3] [100; 101; 99] 2).
  - lia.
  - simpl. lia.
  - repeat constructor; lra.
  - repeat constructor; lra.
Defined.







(** X5. A window of 0 or less is not refused.  On a valid series the estimate
    is then taken over all returns but the first [-W]; when fewer than two
    returns are left the call raises [ZeroDivisionError]. *)
Theorem realized_vol_nonpositive_window (cs : list R) (window : Z) :
  (window <= 0)%Z ->
  cs <> [] ->
  Forall (fun c => 0 < c) cs ->
  realized_vol_annualized_from_closes (map Some cs) window
  = let w := skipn (Z.to_nat (- window)) (log_returns cs) in
    if (length w <? 2)%nat then Raise ZeroDivisionError
    else Ret (Some (sqrt (sample_variance w * 252))).
Proof.
  intros HW Hne Hpos. unfold realized_vol_annualized_from_closes.
  rewrite length_map.
  assert (Hlen : (1 <= length cs)%nat).
  { destruct cs; [contradiction|simpl; lia]. }
  destruct (Z.ltb_spec (Z.of_nat (length cs)) (window + 1)); [lia|].
  unfold range.
  rewrite (rets_loop_valid cs Hpos (length cs - 1) 0 []) by lia.
  cbn [app skipn].
  assert (Hs : slice_from (- window) (log_returns cs)
               = skipn (Z.to_nat (- window)) (log_returns cs)).
  { unfold slice_from, clamp.
    destruct (Z.ltb_spec (- window) 0); [lia|].
    destruct (Z.le_gt_cases (- window)
                (Z.of_nat (length (log_returns cs)))) as [Hle|Hgt].
    - rewrite Z.min_l by lia. reflexivity.
    - rewrite Z.min_r by lia. rewrite Nat2Z.id.
      rewrite !skipn_all2 by lia. reflexivity. }
  rewrite Hs. set (w := skipn (Z.to_nat (- window)) (log_returns cs)).
  cbv zeta.
  destruct (Z.ltb_spec (Z.of_nat (length w)) window); [lia|].
  unfold truediv at 1.
  destruct (Req_dec_T (INR (length w)) 0) as [E0|N0].
  { assert (length w = 0%nat) by (apply INR_eq; rewrite E0; reflexivity).
    destruct (Nat.ltb_spec (length w) 2); [reflexivity|lia]. }
  cbn [Py.bind].
  assert (Hz : IZR (Z.of_nat (length w) - 1) = INR (length w) - 1).
  { rewrite minus_IZR, <- INR_IZR_INZ. reflexivity. }
  unfold truediv.
  destruct (Req_dec_T (IZR (Z.of_nat (length w) - 1)) 0) as [E1|N1].
  { rewrite Hz in E1.
    assert (length w = 1%nat).
    { apply INR_eq. rewrite INR_1. lra. }
    destruct (Nat.ltb_spec (length w) 2); [reflexivity|lia]. }
  cbn [Py.bind].
  assert (H2 : (2 <= length w)%nat).
  { destruct (length w) as [|[|n]] eqn:E.
    - exfalso. apply N0. reflexivity.
    - exfalso. apply N1. reflexivity.
    - lia. }
  destruct (Nat.ltb_spec (length w) 2); [lia|].
  rewrite !sum_total, Hz.
  fold (mean w). fold (sample_variance w).
  assert (Hgt1 : 1 < INR (length w)) by (apply lt_1_INR; lia).
  assert (Hv : 0 <= sample_variance w).
  { unfold sample_variance. apply Rmult_le_pos.
    - apply total_squares_nonneg.
    - apply Rlt_le, Rinv_0_lt_compat. lra. }
  unfold math_sqrt.
  destruct (Rle_dec 0 (sample_variance w * 252)) as [_|F];
    [reflexivity|exfalso; apply F; nra].
Qed.

Lemma realized_vol_nonpositive_window_witness :
  realized_vol_annualized_from_closes (map Some [100; 101; 99]) 0
  = Ret (Some (sqrt (sample_variance (log_returns [100; 101; 99]) * 252)))
  /\ realized_vol_annualized_from_closes (map Some [100; 101; 99]) (-1)
     = Raise ZeroDivisionError.
Proof.
  split.
  - apply (realized_vol_nonpositive_window [100; 101; 99] 0).
    + lia.
    + discriminate.
    + repeat constructor; lra.
  - apply (realized_vol_nonpositive_window [100; 101; 99] (-1)).
    + lia.
    + discriminate.
    + repeat constructor; lra.
Defined.

End RealizedMore.

(** ** Chunks of the quote fetch *)

Section ChunkFacts.

Import Scan Aux.

Lemma slice_nat {A : Type} (i k : nat) (l : list A) :
  slice (Z.of_nat i) (Z.of_nat i + Z.of_nat k) l = firstn k (skipn i l).
Proof.
  unfold slice, clamp.
  destruct (Z.ltb_spec (Z.of_nat i) 0); [lia|].
  destruct (Z.ltb_spec (Z.of_nat i + Z.of_nat k) 0); [lia|].
  destruct (Nat.le_gt_cases i (length l)) as [Hi|Hi].
  - rewrite (Z.min_l (Z.of_nat i)) by lia. rewrite Nat2Z.id.
    destruct (Nat.le_gt_cases (i + k) (length l)) as [Hk|Hk].
    + rewrite Z.min_l by lia. f_equal. lia.
    + rewrite Z.min_r by lia. rewrite Nat2Z.id.
      rewrite !firstn_all2; try reflexivity; rewrite length_skipn; lia.
  - rewrite !skipn_all2 by lia.
    rewrite !firstn_nil. reflexivity.
Qed.

Lemma concat_chunks {A : Type} (k : nat) :
  forall (n : nat) (l : list A),
    (length l <= n * k)%nat ->
    concat (map (fun j => firstn k (skipn (j * k) l)) (seq 0 n)) = l.
Proof.
  induction n as [|n IH]; intros l Hl.
  - destruct l; [reflexivity|simpl in Hl; lia].
  - change (seq 0 (S n)) with (0%nat :: seq 1 n).
    rewrite <- seq_shift. cbn [map concat]. rewrite map_map.
    cbn [Nat.mul skipn].
    rewrite (map_ext _ (fun j => firstn k (skipn (j * k) (skipn k l)))).
    + rewrite IH; [apply firstn_skipn|]. rewrite length_skipn. lia.
    + intros j. rewrite skipn_skipn. do 2 f_equal. lia.
Qed.

Lemma chunk_count_covers (len k : nat) :
  (0 < k)%nat -> (len <= (len + k - 1) / k * k)%nat.
Proof.
  intros Hk.
  pose proof (Nat.div_mod (len + k - 1) k ltac:(lia)) as Hd.
  pose proof (Nat.mod_upper_bound (len + k - 1) k ltac:(lia)) as Hm.
  nia.
Qed.

Lemma chunk_start_inside (len k j : nat) :
  (0 < k)%nat -> (j < (len + k - 1) / k)%nat -> (j * k < len)%nat.
Proof.
  intros Hk Hj.
  pose proof (Nat.div_mod (len + k - 1) k ltac:(lia)) as Hd.
  pose proof (Nat.mod_upper_bound (len + k - 1) k ltac:(lia)) as Hm.
  nia.
Qed.

Lemma dedupe_fold_in (l acc : list string) (s : string) :
  In s (fold_left dedupe_step l acc) <-> In s acc \/ In s l.
Proof.
  revert acc; induction l as [|x l IH]; intros acc; cbn [fold_left].
  - simpl. tauto.
  - rewrite IH. unfold dedupe_step.
    destruct (existsb (String.eqb x) acc) eqn:E.
    + apply existsb_exists in E. destruct E as [y [Hy Hxy]].
      apply String.eqb_eq in Hxy. subst y. simpl.
      split; [tauto|]. intros [H|[<-|H]]; auto.
    + rewrite in_app_iff. simpl. tauto.
Qed.

Lemma dedupe_fold_nodup (l acc : list string) :
  NoDup acc -> NoDup (fold_left dedupe_step l acc).
Proof.
  revert acc; induction l as [|x l IH]; intros acc H; cbn [fold_left].
  - exact H.
  - apply IH. unfold dedupe_step.
    destruct (existsb (String.eqb x) acc) eqn:E; [exact H|].
    apply NoDup_app; [exact H|constructor; [intros []|constructor]|].
    intros y Hy [Hx|[]]. subst y.
    assert (F : existsb (String.eqb x) acc = true).
    { apply existsb_exists. exists x. split; [exact Hy|].
      apply String.eqb_refl. }
    rewrite F in E. discriminate.
Qed.

(** X6. Every distinct non-empty symbol is asked for exactly once: the chunks
    of a fetch, put end to end, are the stripped symbols without
    repetition in first-seen order, and every chunk holds between 1 and
    [chunk_size] symbols. *)
Theorem chunks_partition_the_symbols (symbols : list string)
    (chunk_size : Z) :
  (0 < chunk_size)%Z ->
  concat (chunks_of symbols chunk_size) = uniq_symbols symbols
  /\ NoDup (uniq_symbols symbols)
  /\ (forall s : string,
         In s (uniq_symbols symbols)
         <-> exists s0 : string,
             In s0 symbols /\ s0 <> ""%string /\ s = strip s0)
  /\ Forall (fun chunk => 1 <= length chunk <= Z.to_nat chunk_size)%nat
            (chunks_of symbols chunk_size).
Proof.
  intros Hk. unfold chunks_of, range_step. fold (uniq_symbols symbols).
  destruct (Z.eqb_spec chunk_size 0); [lia|].
  destruct (Z.ltb_spec chunk_size 0); [lia|].
  set (u := uniq_symbols symbols). set (k := Z.to_nat chunk_size).
  assert (Hk' : (0 < k)%nat) by (unfold k; lia).
  assert (Hs : forall j, slice (Z.of_nat (j * k))
                           (Z.of_nat (j * k) + chunk_size) u
                         = firstn k (skipn (j * k) u)).
  { intros j. replace chunk_size with (Z.of_nat k) by (unfold k; lia).
    apply slice_nat. }
  rewrite map_map.
  rewrite (map_ext _ (fun j => firstn k (skipn (j * k) u)) Hs).
  split; [|split; [|split]].
  - apply concat_chunks, chunk_count_covers, Hk'.
  - apply dedupe_fold_nodup. constructor.
  - intros s. unfold u, uniq_symbols. rewrite dedupe_fold_in.
    rewrite in_map_iff. split.
    + intros [[]|[s0 [<- H0]]]. apply filter_In in H0.
      destruct H0 as [Hin Hne]. exists s0. repeat split; [exact Hin|].
      intros ->. discriminate.
    + intros [s0 [Hin [Hne ->]]]. right. exists s0. split; [reflexivity|].
      apply filter_In. split; [exact Hin|]. unfold nonempty.
      destruct (String.eqb_spec s0 ""); [contradiction|reflexivity].
  - apply Forall_forall. intros chunk Hc. apply in_map_iff in Hc.
    destruct Hc as [j [<- Hj]]. apply in_seq in Hj.
    pose proof (chunk_start_inside (length u) k j Hk' ltac:(lia)).
    rewrite length_firstn, length_skipn. lia.
Qed.

Lemma chunks_partition_the_symbols_witness :
  concat (chunks_of ["A"; " B "; "A"; ""; "C"]%string 2)
  = uniq_symbols ["A"; " B "; "A"; ""; "C"]%string
  /\ chunks_of ["A"; " B "; "A"; ""; "C"]%string 2
     = [["A"; "B"]; ["C"]]%string.
Proof.
  split.
  - apply (chunks_partition_the_symbols ["A"; " B "; "A"; ""; "C"]%string 2).
    lia.
  - reflexivity.
Defined.

End ChunkFacts.

(** ** Dictionaries *)

Section DictFacts.

Import Scan Aux.

Context {V : Type}.

Lemma dict_get_set_same (k : string) (v : V) (d : dict V) :
  dict_get k (dict_set k v d) = Some v.
Proof.
  induction d as [|[k' v'] d IH]; cbn [dict_set dict_get].
  - rewrite String.eqb_refl. reflexivity.
  - destruct (String.eqb_spec k k') as [->|Hne]; cbn [dict_get].
    + rewrite String.eqb_refl. reflexivity.
    + destruct (String.eqb_spec k k'); [contradiction|exact IH].
Qed.

Lemma dict_get_set_other (k k' : string) (v : V) (d : dict V) :
  k' <> k -> dict_get k' (dict_set k v d) = dict_get k' d.
Proof.
  intros Hne. induction d as [|[k0 v0] d IH]; cbn [dict_set dict_get].
  - destruct (String.eqb_spec k' k); [contradiction|reflexivity].
  - destruct (String.eqb_spec k k0) as [->|Hk]; cbn [dict_get].
    + destruct (String.eqb_spec k' k0); [contradiction|reflexivity].
    + destruct (String.eqb_spec k' k0); [reflexivity|exact IH].
Qed.

Lemma dict_get_app (k : string) (d1 d2 : dict V) :
  dict_get k (d1 ++ d2)
  = match dict_get k d1 with
    | Some v => Some v
    | None => dict_get k d2
    end.
Proof.
  induction d1 as [|[k' v'] d1 IH]; cbn [app dict_get]; [reflexivity|].
  destruct (String.eqb k k'); [reflexivity|exact IH].
Qed.

Lemma dict_get_in_keys (k : string) (d : dict V) :
  dict_get k d <> None <-> In k (keys d).
Proof.
  unfold keys. induction d as [|[k' v'] d IH]; cbn [dict_get map fst In].
  - split; [intros H; contradiction|intros []].
  - destruct (String.eqb_spec k k') as [->|Hne].
    + split; [auto|discriminate].
    + rewrite IH. split; [auto|]. intros [E|H]; [congruence|exact H].
Qed.

Lemma keys_set (k : string) (v : V) (d : dict V) :
  keys (dict_set k v d) = keys d
  \/ (~ In k (keys d) /\ keys (dict_set k v d) = keys d ++ [k]).
Proof.
  unfold keys. induction d as [|[k' v'] d IH]; cbn [dict_set map fst].
  - right. split; [intros []|reflexivity].
  - destruct (String.eqb_spec k k') as [->|Hne]; cbn [map fst].
    + left. reflexivity.
    + destruct IH as [E|[Hn E]].
      * left. rewrite E. reflexivity.
      * right. split.
        -- intros [F|F]; [congruence|contradiction].
        -- rewrite E. reflexivity.
Qed.

Lemma keys_set_nodup (k : string) (v : V) (d : dict V) :
  NoDup (keys d) -> NoDup (keys (dict_set k v d)).
Proof.
  intros H. destruct (keys_set k v d) as [E|[Hn E]]; rewrite E.
  - exact H.
  - apply NoDup_app; [exact H|constructor; [intros []|constructor]|].
    intros y Hy [Hx|[]]. subst y. contradiction.
Qed.

Lemma dict_update_nodup (other d : dict V) :
  NoDup (keys d) -> NoDup (keys (dict_update d other)).
Proof.
  unfold dict_update. revert d.
  induction other as [|[k v] other IH]; intros d H; cbn [fold_left].
  - exact H.
  - apply IH, keys_set_nodup, H.
Qed.

(** After [d.update(other)] a key has the value [other] gives it, the last
    one if [other] lists it twice, and else the value it had in [d]. *)
Lemma dict_get_update (k : string) (other d : dict V) :
  dict_get k (dict_update d other)
  = match dict_get k (rev other) with
    | Some v => Some v
    | None => dict_get k d
    end.
Proof.
  unfold dict_update. revert d.
  induction other as [|[k' v'] other IH]; intros d; cbn [fold_left rev].
  - reflexivity.
  - rewrite IH, dict_get_app. cbn [fst snd dict_get].
    destruct (dict_get k (rev other)); [reflexivity|].
    destruct (String.eqb_spec k k') as [->|Hne].
    + apply dict_get_set_same.
    + apply dict_get_set_other, Hne.
Qed.

Lemma fold_dict_update_concat (ds : list (dict V)) (d : dict V) :
  fold_left dict_update ds d = dict_update d (concat ds).
Proof.
  revert d; induction ds as [|o ds IH]; intros d; cbn [fold_left concat].
  - reflexivity.
  - rewrite IH. unfold dict_update. rewrite fold_left_app. reflexivity.
Qed.

End DictFacts.

Section FetchedQuotes.

Import Scan Aux.

(** X7. What a quote fetch returns, symbol by symbol: a symbol has a quote in
    the result exactly when the reply of some chunk that did not fail
    carries one, and the quote is the one carried last; no symbol appears
    twice. *)
Theorem fetched_quotes_are_the_delivered_ones (base_url : string)
    (symbols : list string) (chunk_size : Z) (w : world) :
  (0 < chunk_size)%Z ->
  let rs := map (replies w)
                (seq (sent w) (length (chunks_of symbols chunk_size))) in
  let ds := map delivered (filter (fun r => negb (chunk_failed r)) rs) in
  exists (out : dict json) (w' : world),
    fetch_quotes_batch_chunked base_url symbols chunk_size w = (Ret out, w')
    /\ NoDup (keys out)
    /\ (forall sym : string,
           dict_get sym out = dict_get sym (rev (concat ds)))
    /\ (forall sym : string,
           In sym (keys out) <-> exists d, In d ds /\ In sym (keys d)).
Proof.
  intros Hk rs ds.
  eexists. eexists. split; [apply fetch_quotes_run, Hk|].
  fold rs. fold ds. rewrite fold_dict_update_concat.
  assert (Hget : forall sym, dict_get sym (dict_update [] (concat ds))
                             = dict_get sym (rev (concat ds))).
  { intros sym. rewrite dict_get_update.
    destruct (dict_get sym (rev (concat ds))); reflexivity. }
  split; [apply dict_update_nodup; constructor|].
  split; [exact Hget|].
  intros sym. rewrite <- dict_get_in_keys, Hget, dict_get_in_keys.
  unfold keys. rewrite map_rev, <- in_rev, concat_map, in_concat.
  split.
  - intros [ks [Hks Hin]]. apply in_map_iff in Hks.
    destruct Hks as [d [<- Hd]]. exists d. split; assumption.
  - intros [d [Hd Hin]]. exists (map fst d). split; [|exact Hin].
    apply in_map. exact Hd.
Qed.

Lemma fetched_quotes_are_the_delivered_ones_witness :
  exists (out : dict json) (w' : world),
    fetch_quotes_batch_chunked Sample.base ["A"; "B"; "C"]%string 2
      Sample.flaky = (Ret out, w')
    /\ NoDup (keys out)
    /\ dict_get "AAPL240621C160" out
       = Some (JObj [("iv"%string, JNum 0.30); ("delta"%string, JNum 0.35)])
    /\ dict_get "A" out = None.
Proof.
  destruct (fetched_quotes_are_the_delivered_ones Sample.base
              ["A"; "B"; "C"]%string 2 Sample.flaky)
    as [out [w' [Hrun [Hnd [Hget _]]]]].
  - lia.
  - exists out, w'. split; [exact Hrun|]. split; [exact Hnd|].
    split; rewrite Hget; reflexivity.
Defined.

End FetchedQuotes.

(** ** The answer of the ATM lookup *)

Section AtmAnswer.

Import Scan Aux.

Variable float_of_str : string -> option R.

Lemma pick_body_all_or_none (item : string * json) (b b' : best) :
  pick_body float_of_str item b = Ret b' ->
  all_or_none b -> all_or_none b'.
Proof.
  destruct item as [sym q]. unfold pick_body.
  destruct (get q "iv") as [vi|e]; cbn [Py.bind]; [|discriminate].
  destruct (get q "delta") as [vd|e]; cbn [Py.bind]; [|discriminate].
  destruct (_safe_float float_of_str (_first vi)) as [iv|];
    destruct (_safe_float float_of_str (_first vd)) as [de|];
    try (intros [= <-] H; exact H).
  destruct (improves _ b); intros [= <-] H; [|exact H].
  right. do 4 eexists. reflexivity.
Qed.

Lemma pick_loop_all_or_none (quotes : dict json) :
  forall b b' : best,
    for_result (pick_body float_of_str) quotes b = Ret b' ->
    all_or_none b -> all_or_none b'.
Proof.
  induction quotes as [|item quotes IH]; intros b b' H Hb.
  - injection H as <-. exact Hb.
  - cbn [for_result] in H.
    destruct (pick_body float_of_str item b) as [b1|e] eqn:E;
      cbn [Py.bind] in H; [|discriminate].
    eapply IH; [exact H|]. eapply pick_body_all_or_none; eauto.
Qed.

(** The selection returns a symbol, an iv and a delta together or none of
    them. *)
Lemma pick_atm_all_or_none (spot : R) (quotes : dict json)
    (sym : option string) (iv delta : option R) :
  pick_atm_from_quotes float_of_str spot quotes = Ret (sym, iv, delta) ->
  (sym = None /\ iv = None /\ delta = None)
  \/ (exists (s : string) (i d : R),
         sym = Some s /\ iv = Some i /\ delta = Some d).
Proof.
  unfold pick_atm_from_quotes.
  destruct (for_result _ quotes _) as [b|e] eqn:E; cbn [Py.bind];
    [|discriminate].
  intros [= <- <- <-].
  destruct (pick_loop_all_or_none quotes _ b E) as [->|[s [i [d [x ->]]]]].
  - left. reflexivity.
  - left. repeat split.
  - right. exists s, i, d. repeat split.
Qed.

Lemma no_pick_is_refusal (t : string) (spot : option R) (why : string) :
  nonempty why = true -> is_refusal (no_pick t spot why).
Proof.
  intros H. unfold is_refusal, no_pick. cbn.
  split; [exists why; split; [reflexivity|exact H]|]. repeat split.
Qed.

Lemma get_atm_shape (base_url ticker : string)
    (max_quotes : Z) (w : world) :
  exists (a : atm) (w' : world),
    get_atm_iv_for_ticker float_of_str base_url ticker max_quotes w
    = (Ret a, w')
    /\ atm_ticker a = upper (strip ticker)
    /\ (is_pick a \/ is_refusal a).
Proof.
  unfold get_atm_iv_for_ticker, try_except, Net.bind.
  set (t := upper (strip ticker)).
  assert (Herr : forall e w1,
             exists a w', (ret (no_pick t None ("err:" ++ exn_text e)%string))
                            w1 = (Ret a, w')
                          /\ atm_ticker a = t
                          /\ (is_pick a \/ is_refusal a)).
  { intros e w1. do 2 eexists. split; [reflexivity|].
    split; [reflexivity|]. right. apply no_pick_is_refusal. reflexivity. }
  destruct (fetch_spot float_of_str base_url t w) as [[[sp|]|e] w1];
    [| |apply Herr].
  2:{ do 2 eexists. split; [reflexivity|]. split; [reflexivity|].
      right. apply no_pick_is_refusal. reflexivity. }
  destruct (fetch_chain_symbols base_url t w1) as [[chain|e] w2];
    [|apply Herr].
  destruct chain as [|s0 chain].
  { do 2 eexists. split; [reflexivity|]. split; [reflexivity|].
    right. apply no_pick_is_refusal. reflexivity. }
  destruct (fetch_quotes_batch_chunked base_url _ 20 w2)
    as [[quotes|e] w3]; [|apply Herr].
  destruct quotes as [|kv quotes].
  { do 2 eexists. split; [reflexivity|]. split; [reflexivity|].
    right. apply no_pick_is_refusal. reflexivity. }
  unfold pure.
  destruct (pick_atm_from_quotes float_of_str sp (kv :: quotes))
    as [[[sym iv] delta]|e] eqn:Ep; [|apply Herr].
  destruct (pick_atm_all_or_none _ _ _ _ _ Ep)
    as [[-> [-> ->]]|[s [i [d [-> [-> ->]]]]]].
  - do 2 eexists. split; [reflexivity|]. split; [reflexivity|].
    right. apply no_pick_is_refusal. reflexivity.
  - do 2 eexists. split; [reflexivity|]. split; [reflexivity|].
    left. unfold is_pick. cbn.
    split; [reflexivity|]. repeat split; eexists; reflexivity.
Qed.

(** X8. [get_atm_iv_for_ticker] never raises, whatever the provider does and
    whatever the payloads hold; its answer names the normalised ticker and
    is either a pick (spot, iv, delta and symbol present, no reason) or a
    refusal (a non-empty reason; iv, delta and symbol absent). *)
Theorem get_atm_answers_pick_or_refusal (base_url ticker : string)
    (max_quotes : Z) (w : world) :
  exists (a : atm) (w' : world),
    get_atm_iv_for_ticker float_of_str base_url ticker max_quotes w
    = (Ret a, w')
    /\ atm_ticker a = upper (strip ticker)
    /\ (is_pick a \/ is_refusal a).
Proof. apply get_atm_shape. Qed.

End AtmAnswer.

Section AtmBudget.

Import Scan Aux.

Variable float_of_str : string -> option R.

Lemma fetch_spot_one_request (base_url ticker : string) (w : world) :
  exists r : result (option R),
    fetch_spot float_of_str base_url ticker w
    = (r, advance w 1
            [Get (base_url ++ "/api/stocks/price")%string [ticker]]).
Proof.
  unfold fetch_spot, Net.bind, requests_get, pure, ret, advance.
  cbn [plus].
  destruct (replies w (sent w)) as [|st body]; [eexists; reflexivity|].
  destruct (raise_for_status _); [|eexists; reflexivity].
  destruct (json_of _) as [j|]; [|eexists; reflexivity].
  destruct (get j "s") as [s|]; [|eexists; reflexivity].
  destruct (not_ok s); [eexists; reflexivity|].
  destruct (get j "mid"); [|eexists; reflexivity].
  destruct (get j "bid"); [|eexists; reflexivity].
  destruct (get j "ask"); [|eexists; reflexivity].
  destruct (get j "last"); [|eexists; reflexivity].
  destruct (_safe_float _ _); [eexists; reflexivity|].
  destruct (_safe_float _ _); [|eexists; reflexivity].
  destruct (_safe_float _ _); eexists; reflexivity.
Qed.

Lemma fetch_chain_one_request (base_url ticker : string) (w : world) :
  exists r : result (list string),
    fetch_chain_symbols base_url ticker w
    = (r, advance w 1
            [Get (base_url ++ "/api/options/chain")%string [ticker]]).
Proof.
  unfold fetch_chain_symbols, Net.bind, requests_get, pure, ret, advance.
  cbn [plus].
  destruct (replies w (sent w)) as [|st body]; [eexists; reflexivity|].
  destruct (raise_for_status _); [|eexists; reflexivity].
  destruct (json_of _) as [j|]; [|eexists; reflexivity].
  destruct (get j "s") as [s|]; [|eexists; reflexivity].
  destruct (not_ok s); [eexists; reflexivity|].
  destruct (get j "optionSymbols"); [|eexists; reflexivity].
  destruct (iterate _); eexists; reflexivity.
Qed.

Lemma dedupe_fold_length (l acc : list string) :
  (length (fold_left dedupe_step l acc) <= length acc + length l)%nat.
Proof.
  revert acc; induction l as [|x l IH]; intros acc; cbn [fold_left length].
  - lia.
  - etransitivity; [apply IH|]. unfold dedupe_step.
    destruct (existsb _ acc); [lia|]. rewrite length_app. simpl. lia.
Qed.

Lemma chunk_count_bound (symbols : list string) (cap : nat) :
  (length symbols <= cap)%nat ->
  (length (chunks_of symbols 20) <= (cap + 19) / 20)%nat.
Proof.
  intros H. unfold chunks_of. cbn [range_step Z.eqb Z.ltb Z.compare].
  rewrite !length_map, length_seq.
  change (Z.to_nat 20) with 20%nat.
  apply Nat.Div0.div_le_mono.
  pose proof (dedupe_fold_length (map strip (filter nonempty symbols)) []).
  rewrite length_map in H0.
  pose proof (filter_length_le nonempty symbols).
  simpl length in H0. lia.
Qed.

Lemma slice_to_length {A : Type} (stop : Z) (l : list A) :
  (0 <= stop)%Z -> (length (slice_to stop l) <= Z.to_nat stop)%nat.
Proof.
  intros H. unfold slice_to, clamp. rewrite length_firstn.
  destruct (Z.ltb_spec stop 0); lia.
Qed.

(** X9. The lookup of one ticker costs at most one spot request, one chain
    request and one request per chunk of 20 of the first [max_quotes]
    symbols: with the 80 the scan passes, never more than 6 requests, and
    never a pause. *)
Theorem get_atm_request_budget (base_url ticker : string)
    (max_quotes : Z) (w : world) :
  (0 <= max_quotes)%Z ->
  exists (n : nat) (evs : list event),
    snd (get_atm_iv_for_ticker float_of_str base_url ticker max_quotes w)
    = advance w n evs
    /\ (1 <= n <= 2 + (Z.to_nat max_quotes + 19) / 20)%nat
    /\ length evs = n
    /\ Forall (fun ev => exists url q, ev = Get url q) evs.
Proof.
  intros Hmq.
  unfold get_atm_iv_for_ticker, try_except, Net.bind, ret, pure.
  set (t := upper (strip ticker)).
  destruct (fetch_spot_one_request base_url t w) as [r1 E1]. rewrite E1.
  set (w1 := advance w 1 _) in *.
  assert (H1 : exists (n : nat) (evs : list event),
             w1 = advance w n evs
             /\ (1 <= n <= 2 + (Z.to_nat max_quotes + 19) / 20)%nat
             /\ length evs = n
             /\ Forall (fun ev => exists url q, ev = Get url q) evs).
  { do 2 eexists. split; [reflexivity|]. split; [lia|].
    split; [reflexivity|]. repeat constructor. do 2 eexists. reflexivity. }
  destruct r1 as [[sp|]|e]; [|exact H1|exact H1].
  destruct (fetch_chain_one_request base_url t w1) as [r2 E2]. rewrite E2.
  set (w2 := advance w1 1 _) in *.
  assert (H2 : exists (n : nat) (evs : list event),
             w2 = advance w n evs
             /\ (1 <= n <= 2 + (Z.to_nat max_quotes + 19) / 20)%nat
             /\ length evs = n
             /\ Forall (fun ev => exists url q, ev = Get url q) evs).
  { unfold w2, w1. rewrite advance_advance.
    do 2 eexists. split; [reflexivity|]. split; [lia|].
    split; [reflexivity|].
    repeat constructor; do 2 eexists; reflexivity. }
  destruct r2 as [[|s0 chain]|e]; [exact H2| |exact H2].
  rewrite fetch_quotes_run by lia.
  set (chunks := chunks_of _ 20).
  assert (H3 : exists (n : nat) (evs : list event),
             advance w2 (length chunks)
               (map (Get (quotes_url base_url)) chunks) = advance w n evs
             /\ (1 <= n <= 2 + (Z.to_nat max_quotes + 19) / 20)%nat
             /\ length evs = n
             /\ Forall (fun ev => exists url q, ev = Get url q) evs).
  { unfold w2, w1. rewrite !advance_advance.
    do 2 eexists. split; [reflexivity|].
    assert (Hc : (length chunks <= (Z.to_nat max_quotes + 19) / 20)%nat).
    { apply chunk_count_bound, slice_to_length, Hmq. }
    split; [lia|]. split.
    - rewrite !length_app, length_map. simpl. lia.
    - rewrite !Forall_app. repeat split;
        try (repeat constructor; do 2 eexists; reflexivity).
      apply Forall_forall. intros ev Hev. apply in_map_iff in Hev.
      destruct Hev as [c [<- _]]. do 2 eexists. reflexivity. }
  match goal with
  | |- context [fold_left ?f ?l ?a] => destruct (fold_left f l a)
  end; [exact H3|].
  destruct (pick_atm_from_quotes _ _ _) as [[[sym iv] delta]|e];
    [|exact H3].
  destruct iv; exact H3.
Qed.

End AtmBudget.

Section AtmBudgetSample.

Import Scan Aux.

Lemma get_atm_request_budget_witness :
  exists (n : nat) (evs : list event),
    snd (get_atm_iv_for_ticker Sample.no_text_number Sample.base "AAPL" 80
           (Sample.one_ticker Sample.chain_reply))
    = advance (Sample.one_ticker Sample.chain_reply) n evs
    /\ (1 <= n <= 6)%nat
    /\ length evs = n
    /\ Forall (fun ev => exists url q, ev = Get url q) evs.
Proof.
  apply (get_atm_request_budget Sample.no_text_number Sample.base "AAPL" 80
           (Sample.one_ticker Sample.chain_reply)).
  lia.
Defined.

End AtmBudgetSample.

(** ** Score and gap *)

Section ScoreMore.

Import Scan.

(** X10. With a positive realized volatility the score is the gap in units of
    rv: both have the same sign, and a higher iv gives a strictly higher
    gap and a strictly higher score. *)
Theorem score_is_relative_gap (iv iv' rv : R) :
  0 < rv ->
  exists gap score gap' score' : R,
    score_iv_gap (Some iv) (Some rv) = Ret (Some gap, Some score)
    /\ score_iv_gap (Some iv') (Some rv) = Ret (Some gap', Some score')
    /\ score = gap / rv
    /\ (0 < score <-> 0 < gap)
    /\ (score < 0 <-> gap < 0)
    /\ (iv < iv' -> gap < gap' /\ score < score').
Proof.
  intros Hrv. unfold score_iv_gap, truediv.
  destruct (Req_dec_T rv 0) as [F|_]; [lra|]. cbn [Py.bind].
  do 4 eexists. split; [reflexivity|]. split; [reflexivity|].
  assert (E : forall x, x / rv - 1 = (x - rv) / rv) by (intros; field; lra).
  rewrite !E.
  assert (Hinv : 0 < / rv) by (apply Rinv_0_lt_compat, Hrv).
  unfold Rdiv. repeat split; intros; nra.
Qed.

Lemma score_is_relative_gap_witness :
  exists gap score gap' score' : R,
    score_iv_gap (Some 0.35) (Some 0.25) = Ret (Some gap, Some score)
    /\ score_iv_gap (Some 0.40) (Some 0.25) = Ret (Some gap', Some score')
    /\ score = gap / 0.25
    /\ (0 < score <-> 0 < gap)
    /\ (score < 0 <-> gap < 0)
    /\ (0.35 < 0.40 -> gap < gap' /\ score < score').
Proof.
  apply (score_is_relative_gap 0.35 0.40 0.25). lra.
Defined.

End ScoreMore.

(** ** The scan endpoint *)

Section ScanFacts.

Import Scan Main Aux.

Variable float_of_str : string -> option R.

Lemma or_else_nonempty (a : option string) (why : string) :
  nonempty why = true ->
  exists s, or_else a (Some why) = Some s /\ nonempty s = true.
Proof.
  intros H. unfold or_else. destruct a as [s|].
  - destruct (nonempty s) eqn:E; eexists; split; eauto.
  - eexists; split; eauto.
Qed.

(** One turn of the ticker loop never raises and appends one well-formed
    entry for its ticker. *)
Lemma scan_body_run (base_url : string) (rv_map : dict R) (t : string)
    (results : list entry) (w : world) :
  exists (e : entry) (w' : world),
    scan_body float_of_str base_url rv_map t results w
    = (Ret (results ++ [e]), w')
    /\ ticker e = t
    /\ well_formed_entry e.
Proof.
  unfold scan_body, Net.bind.
  destruct (get_atm_shape float_of_str base_url t 80 w)
    as [a [w1 [E [_ Hshape]]]].
  rewrite E. unfold pure, ret.
  destruct (dict_get t rv_map) as [r|] eqn:Erv.
  - destruct Hshape as [[Hr [_ [[i Hi] _]]]|[[why [Hr Hne]] [Hi _]]].
    + rewrite Hi, Hr. unfold score_iv_gap, truediv.
      destruct (Req_dec_T r 0) as [->|Hnz]; cbn [Py.bind].
      * do 2 eexists. split; [reflexivity|]. split; [reflexivity|].
        unfold well_formed_entry. cbn -[or_else].
        repeat split; try discriminate. intros [F|F]; discriminate.
      * do 2 eexists. split; [reflexivity|]. split; [reflexivity|].
        unfold well_formed_entry. cbn -[or_else].
        repeat split; try discriminate.
        -- intros s [= <-]. exists i, r. repeat split. exact Hnz.
        -- intros [F|F]; discriminate.
    + rewrite Hi, Hr. cbn [score_iv_gap].
      do 2 eexists. split; [reflexivity|]. split; [reflexivity|].
      unfold well_formed_entry. cbn -[or_else].
      repeat split; try discriminate.
      intros _. apply or_else_nonempty. reflexivity.
  - assert (Hs : score_iv_gap (atm_iv a) None = Ret (None, None)).
    { destruct (atm_iv a); reflexivity. }
    rewrite Hs.
    do 2 eexists. split; [reflexivity|]. split; [reflexivity|].
    unfold well_formed_entry. cbn -[or_else].
    repeat split; try discriminate.
    intros _.
    replace (match atm_iv a with
             | Some _ => Some "missing_rv_or_iv"%string
             | None => Some "missing_rv_or_iv"%string
             end) with (Some "missing_rv_or_iv"%string)
      by (destruct (atm_iv a); reflexivity).
    apply or_else_nonempty. reflexivity.
Qed.

Lemma scan_loop_run (base_url : string) (rv_map : dict R)
    (tickers : list string) :
  forall (acc : list entry) (w : world),
    exists (es : list entry) (w' : world),
      for_io (scan_body float_of_str base_url rv_map) tickers acc w
      = (Ret (acc ++ es), w')
      /\ map ticker es = tickers
      /\ Forall well_formed_entry es.
Proof.
  induction tickers as [|t tickers IH]; intros acc w.
  - exists [], w. rewrite app_nil_r. repeat split. constructor.
  - cbn [for_io]. unfold Net.bind at 1.
    destruct (scan_body_run base_url rv_map t acc w)
      as [e [w1 [E [Ht He]]]].
    rewrite E.
    destruct (IH (acc ++ [e]) w1) as [es [w2 [E2 [Hts Hes]]]].
    exists (e :: es), w2. rewrite E2, <- app_assoc.
    split; [reflexivity|]. split.
    + cbn [map]. rewrite Ht, Hts. reflexivity.
    + constructor; assumption.
Qed.

Lemma rank_incl (results : list entry) (top : Z) (e : entry) :
  In e (rank results top) -> In e results.
Proof.
  unfold rank, slice_to. intros H.
  apply in_app_or in H.
  destruct H as [H|H]; apply firstn_In in H; apply filter_In in H;
    destruct H as [H _];
    apply (Permutation_in _ (sort_reverse_perm _sort_key results)); exact H.
Qed.

Lemma rank_length (results : list entry) (top : Z) :
  (0 <= top)%Z ->
  (length (rank results top) <= Z.to_nat top + 10)%nat.
Proof.
  intros H. unfold rank. rewrite length_app.
  pose proof (slice_to_length top
                (filter scored (sort_reverse _sort_key results)) H).
  pose proof (slice_to_length 10
                (filter unscored (sort_reverse _sort_key results))
                ltac:(lia)).
  change (Z.to_nat 10) with 10%nat in *. lia.
Qed.

(** The tickers a scan works through. *)
Lemma scan_tickers_cases (rows : list string) (limit : Z) :
  (if (negb (limit =? 0) && (0 <? limit))%Z then slice_to limit rows
   else rows)
  = if (0 <? limit)%Z then firstn (Z.to_nat limit) rows else rows.
Proof.
  destruct (Z.ltb_spec 0 limit) as [Hpos|Hneg].
  - destruct (Z.eqb_spec limit 0); [lia|]. cbn [negb andb].
    replace limit with (Z.of_nat (Z.to_nat limit)) at 1 by lia.
    apply slice_to_firstn.
  - rewrite andb_false_r. reflexivity.
Qed.

(** X11. The scan never raises, whatever the provider does: every ticker of the
    universe (the first [limit] of them for a positive [limit]) is counted,
    failed lookups included, and for [top >= 0] at most [top + 10] entries
    are returned, each for a ticker of the universe. *)
Theorem scan_sp500_never_raises (rows : list string) (rv_map : dict R)
    (top limit : Z) (base_url : string) (w : world) :
  exists (reply : scan_reply) (w' : world),
    scan_sp500 float_of_str rows rv_map top limit base_url w
    = (Ret reply, w')
    /\ count reply
       = (if (0 <? limit)%Z then Nat.min (Z.to_nat limit) (length rows)
          else length rows)
    /\ ((0 <= top)%Z -> (length (ranked reply) <= Z.to_nat top + 10)%nat)
    /\ (forall e : entry, In e (ranked reply) -> In (ticker e) rows).
Proof.
  unfold scan_sp500, Net.bind. rewrite scan_tickers_cases.
  set (tickers := if (0 <? limit)%Z then firstn (Z.to_nat limit) rows
                  else rows).
  destruct (scan_loop_run base_url rv_map tickers [] w)
    as [es [w' [E [Hts _]]]].
  rewrite E. cbn [app]. unfold ret.
  do 2 eexists. split; [reflexivity|]. cbn [count ranked].
  split; [|split].
  - rewrite <- (length_map ticker), Hts. unfold tickers.
    destruct (0 <? limit)%Z; [apply length_firstn|reflexivity].
  - apply rank_length.
  - intros e He. apply rank_incl in He.
    assert (Hin : In (ticker e) tickers).
    { rewrite <- Hts. apply in_map, He. }
    unfold tickers in Hin.
    destruct (0 <? limit)%Z; [eapply firstn_In; eauto|exact Hin].
Qed.

(** X12. Every entry a scan returns is well formed: gap and score are present
    together and are then [iv - rv] and [iv / rv - 1] for a non-zero rv; an
    entry without iv or without rv carries a non-empty reason; the fields
    [expiry] and [atm_strike] are always null. *)
Theorem scan_entries_are_well_formed (rows : list string)
    (rv_map : dict R) (top limit : Z) (base_url : string) (w : world) :
  exists (reply : scan_reply) (w' : world),
    scan_sp500 float_of_str rows rv_map top limit base_url w
    = (Ret reply, w')
    /\ Forall well_formed_entry (ranked reply).
Proof.
  unfold scan_sp500, Net.bind.
  match goal with
  | |- context [for_io _ ?ts [] w] =>
      destruct (scan_loop_run base_url rv_map ts [] w)
        as [es [w' [E [_ Hes]]]]
  end.
  rewrite E. cbn [app]. unfold ret.
  do 2 eexists. split; [reflexivity|]. cbn [ranked].
  apply Forall_forall. intros e He. apply rank_incl in He.
  rewrite Forall_forall in Hes. apply Hes, He.
Qed.

End ScanFacts.

(** ** Ranking does not depend on the order of the universe *)

Section RankOrder.

Import Main.

Lemma sorted_perm_unique {A : Type} (key : A -> R) (a : list A) :
  forall b : list A,
    Permutation a b ->
    StronglySorted (desc key) a ->
    StronglySorted (desc key) b ->
    NoDup (map key a) ->
    a = b.
Proof.
  induction a as [|x a IH]; intros b Hp Sa Sb Hnd.
  - apply Permutation_nil in Hp. subst. reflexivity.
  - destruct b as [|y b].
    { symmetry in Hp. apply Permutation_nil in Hp. discriminate. }
    inversion Sa as [|? ? Sa' Fa]; subst.
    inversion Sb as [|? ? Sb' Fb]; subst.
    inversion Hnd as [|? ? Hx Hnd']; subst.
    assert (Hxy : x = y).
    { assert (Hx_in : In x (y :: b)).
      { apply (Permutation_in _ Hp). left. reflexivity. }
      assert (Hy_in : In y (x :: a)).
      { apply (Permutation_in _ (Permutation_sym Hp)). left. reflexivity. }
      destruct Hy_in as [E|Hy]; [exact E|].
      destruct Hx_in as [E|Hxb]; [symmetry; exact E|].
      rewrite Forall_forall in Fa, Fb.
      pose proof (Fa y Hy) as H1. pose proof (Fb x Hxb) as H2.
      unfold desc in H1, H2.
      exfalso. apply Hx.
      replace (key x) with (key y) by lra. apply in_map, Hy. }
    subst y. f_equal. apply IH; try assumption.
    eapply Permutation_cons_inv; eauto.
Qed.

Lemma Permutation_filter {A : Type} (p : A -> bool) (a b : list A) :
  Permutation a b -> Permutation (filter p a) (filter p b).
Proof.
  induction 1 as [|x a b _ IH|x y a|a b c _ IH1 _ IH2]; cbn [filter].
  - constructor.
  - destruct (p x); [constructor|]; exact IH.
  - destruct (p x), (p y); try reflexivity. apply perm_swap.
  - etransitivity; eauto.
Qed.

(** X13. Two scans whose results differ only in the order of the tickers return
    the same ranking, provided no two scored entries have the same score
    and the unscored entries come in the same relative order. *)
Theorem rank_ignores_input_order (results results' : list entry)
    (top : Z) :
  Permutation results results' ->
  NoDup (map _sort_key (filter scored results)) ->
  filter unscored results = filter unscored results' ->
  rank results top = rank results' top.
Proof.
  intros Hp Hnd Hun. unfold rank.
  rewrite !filter_sort_reverse.
  f_equal.
  - f_equal. apply (sorted_perm_unique _sort_key).
    + rewrite !sort_reverse_perm. apply Permutation_filter, Hp.
    + apply sort_reverse_sorted.
    + apply sort_reverse_sorted.
    + eapply Permutation_NoDup; [|exact Hnd].
      apply Permutation_map. symmetry. apply sort_reverse_perm.
  - rewrite Hun. reflexivity.
Qed.

End RankOrder.

Section RankOrderSample.

Import Main MoreSamples.

Local Open Scope string_scope.

Lemma rank_ignores_input_order_witness :
  rank [scored_entry "AAA" 0.30; unscored_entry "BBB"; scored_entry "CCC" 0.50]
       50
  = rank [scored_entry "CCC" 0.50; scored_entry "AAA" 0.30;
          unscored_entry "BBB"] 50.
Proof.
  apply rank_ignores_input_order.
  - apply Permutation_sym.
    apply (Permutation_cons_app [scored_entry "AAA" 0.30; unscored_entry "BBB"]
             [] (scored_entry "CCC" 0.50)).
    rewrite app_nil_r. reflexivity.
  - cbn. repeat constructor; cbn; try tauto.
    intros [H|[]]. lra.
  - reflexivity.
Defined.

End RankOrderSample.

(** ** The retry budget of the candle fetch *)

Section RetryBudget.

Import Backfill Aux.

Lemma backoff_bounds (attempt : nat) (r : reply) :
  0 <= backoff attempt r <= 1.5 * INR attempt.
Proof.
  unfold backoff. pose proof (pos_INR attempt).
  destruct (rate_limited r); lra.
Qed.

Lemma pauses_app (e1 e2 : list event) :
  pauses (e1 ++ e2) = pauses e1 + pauses e2.
Proof.
  induction e1 as [|[url q|secs] e1 IH]; cbn [app pauses].
  - lra.
  - exact IH.
  - rewrite IH. lra.
Qed.

(** The pauses of the failed attempts [first], [first + 1], ... *)
Lemma pauses_retry_events (url : string) (query : list string)
    (rs : list reply) :
  forall first : nat,
    0 <= pauses (retry_events url query first rs)
      <= 1.5 * (INR (length rs) * INR first
                + INR (length rs) * (INR (length rs) - 1) / 2).
Proof.
  induction rs as [|r rs IH]; intros first.
  - cbn. lra.
  - rewrite retry_events_cons. cbn [app pauses length].
    specialize (IH (S first)).
    pose proof (backoff_bounds first r).
    rewrite !S_INR in *. pose proof (pos_INR (length rs)).
    pose proof (pos_INR first). split; [lra|]. nra.
Qed.

(** X14. Whatever the provider does, the candle fetch sends between 1 and 5
    requests, spends at most 22.5 seconds pausing, and either returns a
    decoded body or raises [RuntimeError]: no other exception escapes. *)
Theorem md_get_candles_daily_budget (symbol from_date to_date : string)
    (w : world) :
  exists (r : result json) (n : nat) (evs : list event),
    md_get_candles_daily symbol from_date to_date w = (r, advance w n evs)
    /\ (1 <= n <= 5)%nat
    /\ 0 <= pauses evs <= 22.5
    /\ ((exists j, r = Ret j /\ candles_ok (replies w (n - 1 + sent w)) = Some j)
        \/ (r = Raise RuntimeError /\ n = 5%nat)).
Proof.
  set (ok := fun i => candles_ok (replies w (i + sent w))).
  assert (Hbound : forall rs : list reply,
             (length rs <= 5)%nat ->
             0 <= pauses (retry_events (candles_url symbol)
                            [from_date; to_date] 1 rs) <= 22.5).
  { intros rs Hl.
    pose proof (pauses_retry_events (candles_url symbol)
                  [from_date; to_date] rs 1) as H.
    rewrite INR_1 in H. pose proof (pos_INR (length rs)) as H0.
    assert (INR (length rs) <= 5).
    { replace 5 with (INR 5) by (simpl; lra). apply le_INR, Hl. }
    split; [lra|]. nra. }
  assert (Hok : forall n j,
             (n < 5)%nat ->
             Forall (fun r => candles_ok r = None)
                    (map (replies w) (seq (sent w) n)) ->
             ok n = Some j ->
             exists (r : result json) (n : nat) (evs : list event),
               md_get_candles_daily symbol from_date to_date w
               = (r, advance w n evs)
               /\ (1 <= n <= 5)%nat
               /\ 0 <= pauses evs <= 22.5
               /\ ((exists j, r = Ret j
                              /\ candles_ok (replies w (n - 1 + sent w))
                                 = Some j)
                   \/ (r = Raise RuntimeError /\ n = 5%nat))).
  { intros n j Hn Hall Hj.
    do 3 eexists. split;
      [apply (md_get_candles_daily_ok symbol from_date to_date n w j);
       assumption|].
    split; [lia|]. split.
    - rewrite pauses_app. cbn [pauses].
      pose proof (Hbound (map (replies w) (seq (sent w) n))) as H.
      rewrite length_map, length_seq in H. specialize (H ltac:(lia)). lra.
    - left. exists j. split; [reflexivity|].
      replace (S n - 1)%nat with n by lia. exact Hj. }
  destruct (ok 0%nat) as [j|] eqn:E0.
  { apply (Hok 0%nat j); [lia|constructor|exact E0]. }
  destruct (ok 1%nat) as [j|] eqn:E1.
  { apply (Hok 1%nat j); [lia|repeat constructor; assumption|exact E1]. }
  destruct (ok 2%nat) as [j|] eqn:E2.
  { apply (Hok 2%nat j); [lia|repeat constructor; assumption|exact E2]. }
  destruct (ok 3%nat) as [j|] eqn:E3.
  { apply (Hok 3%nat j); [lia|repeat constructor; assumption|exact E3]. }
  destruct (ok 4%nat) as [j|] eqn:E4.
  { apply (Hok 4%nat j); [lia|repeat constructor; assumption|exact E4]. }
  do 3 eexists. split;
    [apply (md_get_candles_daily_gives_up symbol from_date to_date w);
     repeat constructor; assumption|].
  split; [lia|]. split.
  - apply Hbound. rewrite length_map, length_seq. lia.
  - right. split; reflexivity.
Qed.

End RetryBudget.

(** ** Strings *)

Section StrFacts.

Import Universe.

Lemma rstrip_idempotent (s : string) : rstrip (rstrip s) = rstrip s.
Proof.
  induction s as [|c rest IH]; [reflexivity|].
  cbn [rstrip]. destruct (rstrip rest) as [|c' r] eqn:E.
  - destruct (is_space c) eqn:Ec; [reflexivity|].
    cbn [rstrip]. rewrite Ec. reflexivity.
  - cbn [rstrip]. cbn [rstrip] in IH. 
    destruct (match rstrip r with
              | EmptyString =>
                  if is_space c' then EmptyString else String c' EmptyString
              | String a s0 => String c' (String a s0)
              end) eqn:E'; [discriminate|].
    rewrite <- IH. reflexivity.
Qed.

Lemma lstrip_head (s : string) :
  lstrip s = EmptyString
  \/ exists c r, lstrip s = String c r /\ is_space c = false.
Proof.
  induction s as [|c rest IH]; [left; reflexivity|].
  cbn [lstrip]. destruct (is_space c) eqn:E; [exact IH|].
  right. exists c, rest. split; [reflexivity|exact E].
Qed.

Lemma rstrip_keeps_head (c : ascii) (r : string) :
  is_space c = false -> exists r', rstrip (String c r) = String c r'.
Proof.
  intros H. cbn [rstrip]. destruct (rstrip r).
  - rewrite H. eexists. reflexivity.
  - eexists. reflexivity.
Qed.

Lemma strip_idempotent (s : string) : strip (strip s) = strip s.
Proof.
  unfold strip.
  destruct (lstrip_head s) as [E|[c [r [E Hc]]]]; rewrite E.
  - reflexivity.
  - destruct (rstrip_keeps_head c r Hc) as [r' E']. rewrite E'.
    cbn [lstrip]. rewrite Hc, <- E'. apply rstrip_idempotent.
Qed.

Lemma lstrip_map_chars (f : ascii -> ascii) (s : string) :
  (forall c, is_space (f c) = is_space c) ->
  lstrip (map_chars f s) = map_chars f (lstrip s).
Proof.
  intros Hf. induction s as [|c rest IH]; [reflexivity|].
  cbn [map_chars lstrip]. rewrite Hf.
  destruct (is_space c); [exact IH|reflexivity].
Qed.

Lemma rstrip_map_chars (f : ascii -> ascii) (s : string) :
  (forall c, is_space (f c) = is_space c) ->
  rstrip (map_chars f s) = map_chars f (rstrip s).
Proof.
  intros Hf. induction s as [|c rest IH]; [reflexivity|].
  cbn [map_chars rstrip]. rewrite IH, Hf.
  destruct (rstrip rest); cbn [map_chars].
  - destruct (is_space c); reflexivity.
  - reflexivity.
Qed.

Lemma strip_map_chars (f : ascii -> ascii) (s : string) :
  (forall c, is_space (f c) = is_space c) ->
  strip (map_chars f s) = map_chars f (strip s).
Proof.
  intros Hf. unfold strip.
  rewrite lstrip_map_chars, rstrip_map_chars by exact Hf. reflexivity.
Qed.

Lemma upper_map_chars (s : string) : upper s = map_chars upper_char s.
Proof. induction s as [|c rest IH]; [reflexivity|]. cbn. now rewrite IH. Qed.

Lemma map_chars_compose (f g : ascii -> ascii) (s : string) :
  map_chars f (map_chars g s) = map_chars (fun c => f (g c)) s.
Proof. induction s as [|c rest IH]; [reflexivity|]. cbn. now rewrite IH. Qed.

Lemma map_chars_ext (f g : ascii -> ascii) (s : string) :
  (forall c, f c = g c) -> map_chars f s = map_chars g s.
Proof.
  intros H. induction s as [|c rest IH]; [reflexivity|].
  cbn. now rewrite H, IH.
Qed.

Lemma map_chars_nonempty (f : ascii -> ascii) (s : string) :
  nonempty (map_chars f s) = nonempty s.
Proof. destruct s; reflexivity. Qed.

Ltac each_char c :=
  destruct c as [[] [] [] [] [] [] [] []]; reflexivity.

Lemma is_space_upper_char (c : ascii) : is_space (upper_char c) = is_space c.
Proof. each_char c. Qed.

Lemma is_space_dot_to_dash (c : ascii) :
  is_space (dot_to_dash c) = is_space c.
Proof. each_char c. Qed.

Lemma upper_char_idempotent (c : ascii) :
  upper_char (upper_char c) = upper_char c.
Proof. each_char c. Qed.

Lemma dot_to_dash_idempotent (c : ascii) :
  dot_to_dash (dot_to_dash c) = dot_to_dash c.
Proof. each_char c. Qed.

Lemma upper_char_after_dash (c : ascii) :
  upper_char (dot_to_dash (upper_char c)) = dot_to_dash (upper_char c).
Proof. each_char c. Qed.

End StrFacts.

(** ** The ticker universe *)

Section UniverseFacts.

Import Universe.

Lemma ascii_compare_refl (a : ascii) : Ascii.compare a a = Eq.
Proof. unfold Ascii.compare. apply N.compare_refl. Qed.

(** The order of strings is transitive. *)
Lemma string_compare_trans (c : comparison) (s1 : string) :
  c <> Eq ->
  forall s2 s3 : string,
    String.compare s1 s2 = c -> String.compare s2 s3 = c ->
    String.compare s1 s3 = c.
Proof.
  intros Hc. induction s1 as [|a1 s1 IH]; intros [|a2 s2] [|a3 s3];
    cbn [String.compare]; try congruence.
  destruct (Ascii.compare a1 a2) eqn:E12; destruct (Ascii.compare a2 a3) eqn:E23;
    try congruence.
  - apply Ascii.compare_eq_iff in E12, E23. subst.
    rewrite ascii_compare_refl. apply IH.
  - apply Ascii.compare_eq_iff in E12. subst. rewrite E23. congruence.
  - apply Ascii.compare_eq_iff in E12. subst. rewrite E23. congruence.
  - apply Ascii.compare_eq_iff in E23. subst. rewrite E12. congruence.
  - unfold Ascii.compare in *. rewrite N.compare_lt_iff in *.
    assert (H : (N_of_ascii a1 ?= N_of_ascii a3)%N = Lt).
    { apply N.compare_lt_iff. eapply N.lt_trans; eauto. }
    rewrite H. congruence.
  - apply Ascii.compare_eq_iff in E23. subst. rewrite E12. congruence.
  - unfold Ascii.compare in *. rewrite N.compare_gt_iff in *.
    assert (H : (N_of_ascii a1 ?= N_of_ascii a3)%N = Gt).
    { apply N.compare_gt_iff. eapply N.lt_trans; eauto. }
    rewrite H. congruence.
Qed.

Lemma before_trans (a b c : string) : before a b -> before b c -> before a c.
Proof.
  unfold before, String.ltb. intros H1 H2.
  destruct (String.compare a b) eqn:E1; try discriminate.
  destruct (String.compare b c) eqn:E2; try discriminate.
  rewrite (string_compare_trans Lt a ltac:(discriminate) b c E1 E2).
  reflexivity.
Qed.

Lemma not_leb_before (x y : string) :
  String.leb x y = false -> before y x.
Proof.
  unfold before, String.leb, String.ltb. rewrite (String.compare_antisym x y).
  destruct (String.compare y x); cbn; congruence.
Qed.

Lemma leb_before_or_eq (x y : string) :
  String.leb x y = true -> x = y \/ before x y.
Proof.
  unfold before, String.leb, String.ltb.
  destruct (String.compare x y) eqn:E; try discriminate.
  - left. apply String.compare_eq_iff, E.
  - right. reflexivity.
Qed.

Lemma insert_sorted_perm (x : string) (l : list string) :
  Permutation (insert_sorted x l) (x :: l).
Proof.
  induction l as [|y l IH]; cbn [insert_sorted]; [reflexivity|].
  destruct (String.leb x y); [reflexivity|].
  rewrite IH. apply perm_swap.
Qed.

Lemma sorted_perm (l : list string) : Permutation (sorted l) l.
Proof.
  induction l as [|x l IH]; cbn [sorted fold_right]; [reflexivity|].
  fold (sorted l). rewrite insert_sorted_perm. now constructor.
Qed.

Lemma insert_sorted_ascending (x : string) (l : list string) :
  ~ In x l ->
  StronglySorted before l ->
  StronglySorted before (insert_sorted x l).
Proof.
  intros Hx Hs. induction Hs as [|y l Hs IH Hy]; cbn [insert_sorted].
  - repeat constructor.
  - destruct (String.leb x y) eqn:E.
    + destruct (leb_before_or_eq x y E) as [->|Hb].
      { exfalso. apply Hx. left. reflexivity. }
      constructor; [constructor; assumption|].
      constructor; [exact Hb|].
      eapply Forall_impl; [|exact Hy]. intros z Hz.
      eapply before_trans; eauto.
    + constructor.
      * apply IH. intros F. apply Hx. right. exact F.
      * eapply Permutation_Forall; [symmetry; apply insert_sorted_perm|].
        constructor; [apply not_leb_before, E|exact Hy].
Qed.

Lemma sorted_ascending (l : list string) :
  NoDup l -> StronglySorted before (sorted l).
Proof.
  induction 1 as [|x l Hx Hnd IH]; cbn [sorted fold_right].
  - constructor.
  - apply insert_sorted_ascending; [|exact IH].
    intros F. apply Hx. apply (Permutation_in _ (sorted_perm l)), F.
Qed.

Lemma choose_in {A B : Type} (f : A -> option B) (l : list A) (b : B) :
  In b (Scan.choose f l) <-> exists a, In a l /\ f a = Some b.
Proof.
  induction l as [|a l IH]; cbn [Scan.choose].
  - split; [intros []|intros [a [[] _]]].
  - destruct (f a) as [b'|] eqn:E.
    + cbn [In]. rewrite IH. split.
      * intros [Hb|[a' [Hin Ha']]].
        -- exists a. split; [left; reflexivity|]. rewrite E, Hb. reflexivity.
        -- exists a'. split; [right; exact Hin|exact Ha'].
      * intros [a' [[Ha|Hin] Ha']].
        -- left. subst a'. congruence.
        -- right. exists a'. split; assumption.
    + rewrite IH. split.
      * intros [a' [Hin Ha']]. exists a'. split; [right; exact Hin|exact Ha'].
      * intros [a' [[Ha|Hin] Ha']].
        -- subst a'. congruence.
        -- exists a'. split; assumption.
Qed.

Lemma ticker_of_line_is_ticker (line t : string) :
  ticker_of_line line = Some t -> is_ticker t.
Proof.
  unfold ticker_of_line.
  destruct (nonempty (upper (strip line))) eqn:E; [|discriminate].
  intros [= <-]. unfold is_ticker, no_dot, replace_dot.
  rewrite upper_map_chars in *.
  split; [|split; [|split]].
  - intros F.
    assert (H : nonempty (map_chars dot_to_dash
                            (map_chars upper_char (strip line))) = false).
    { rewrite F. reflexivity. }
    rewrite map_chars_nonempty, E in H. discriminate.
  - rewrite !strip_map_chars, strip_idempotent;
      [reflexivity|apply is_space_upper_char|apply is_space_dot_to_dash].
  - rewrite upper_map_chars, !map_chars_compose.
    apply map_chars_ext, upper_char_after_dash.
  - rewrite map_chars_compose. apply map_chars_ext.
    intros c. apply dot_to_dash_idempotent.
Qed.

Lemma fetch_sp500_tickers_shape (lines l : list string) :
  fetch_sp500_tickers (Some lines) = Ret l ->
  StronglySorted before l
  /\ Forall is_ticker l
  /\ (forall t : string,
         In t l <-> exists line, In line lines /\ ticker_of_line line = Some t).
Proof.
  intros [= <-].
  assert (Hin : forall t,
             In t (sorted (set_of (Scan.choose ticker_of_line lines)))
             <-> exists line, In line lines /\ ticker_of_line line = Some t).
  { intros t. rewrite <- choose_in. unfold set_of.
    split.
    - intros H. apply (Permutation_in _ (sorted_perm _)) in H.
      apply dedupe_fold_in in H. destruct H as [[]|H]. exact H.
    - intros H. apply (Permutation_in _ (Permutation_sym (sorted_perm _))).
      apply dedupe_fold_in. right. exact H. }
  split; [|split].
  - apply sorted_ascending. apply dedupe_fold_nodup. constructor.
  - apply Forall_forall. intros t Ht. apply Hin in Ht.
    destruct Ht as [line [_ Hl]]. eapply ticker_of_line_is_ticker; eauto.
  - exact Hin.
Qed.

(** X15. The universe read from [sp500.csv] is strictly ascending, hence free
    of duplicates; each of its tickers is non-empty, stripped, upper-case
    and free of dots; and it holds exactly the tickers the lines of the
    file give.  Without the file the call raises. *)
Theorem fetch_sp500_tickers_sorted_clean (file : option (list string)) :
  match file with
  | None => fetch_sp500_tickers file = Raise RuntimeError
  | Some lines =>
      exists l : list string,
        fetch_sp500_tickers file = Ret l
        /\ StronglySorted before l
        /\ Forall is_ticker l
        /\ (forall t : string,
               In t l
               <-> exists line,
                   In line lines /\ ticker_of_line line = Some t)
  end.
Proof.
  destruct file as [lines|]; [|reflexivity].
  eexists. split; [reflexivity|].
  apply fetch_sp500_tickers_shape. reflexivity.
Qed.

(** X16. When [sp500.csv] is there, [_get_sp500_tickers_safe] hands on exactly
    what [fetch_sp500_tickers] returned: its second normalisation changes
    nothing, and the CSV fallback is not consulted. *)
Theorem get_sp500_tickers_safe_keeps_universe (lines : list string)
    (csv : result (list string)) :
  exists l : list string,
    fetch_sp500_tickers (Some lines) = Ret l
    /\ _get_sp500_tickers_safe (Some lines) csv = Ret (l, FromUniverse).
Proof.
  destruct (fetch_sp500_tickers (Some lines)) as [l|e] eqn:E;
    [|discriminate].
  exists l. split; [reflexivity|].
  unfold _get_sp500_tickers_safe. rewrite E.
  destruct (fetch_sp500_tickers_shape lines l E) as [_ [Ht _]].
  do 2 f_equal. clear E.
  induction Ht as [|t l [Hne [Hs [Hu Hd]]] _ IH]; [reflexivity|].
  cbn [filter]. unfold nonempty at 1.
  destruct (String.eqb_spec t ""); [contradiction|]. cbn [negb map].
  rewrite IH. f_equal. unfold no_dot in Hd. rewrite Hd, Hs, Hu.
  reflexivity.
Qed.

End UniverseFacts.

(** ** The ratio ranking of [/api/scan] *)

Section RatioFacts.

Import Ratio.

Variable float_of_str : string -> option R.
Variable get_latest_rv20 : string -> option R.

Lemma compute_iv_rv_score_run (t base_url : string) (w : world) :
  exists (d : option ratio_entry) (w' : world),
    compute_iv_rv_score float_of_str get_latest_rv20 t base_url w
    = (Ret d, w')
    /\ forall e : ratio_entry,
         d = Some e ->
         ticker e = upper (strip t) /\ consistent get_latest_rv20 e.
Proof.
  unfold compute_iv_rv_score, Net.bind.
  destruct (get_atm_shape float_of_str base_url (upper (strip t)) 80 w)
    as [a [w1 [E _]]].
  rewrite E.
  destruct (Scan.atm_iv a) as [i|].
  2:{ do 2 eexists. split; [reflexivity|]. discriminate. }
  destruct (get_latest_rv20 (upper (strip t))) as [r|] eqn:Er.
  2:{ do 2 eexists. split; [reflexivity|]. discriminate. }
  destruct (Req_dec_T r 0) as [Hz|Hnz].
  { do 2 eexists. split; [reflexivity|]. discriminate. }
  unfold pure, truediv, ret.
  destruct (Req_dec_T r 0) as [F|_]; [contradiction|].
  do 2 eexists. split; [reflexivity|].
  intros e [= <-]. split; [reflexivity|].
  unfold consistent. cbn [rv20 ticker iv iv_rv_ratio].
  repeat split; try assumption.
  unfold Scan.score_iv_gap, truediv.
  destruct (Req_dec_T r 0) as [F|_]; [contradiction|]. reflexivity.
Qed.

Lemma ratio_loop_run (tickers : list string) :
  forall (acc : list ratio_entry) (w : world),
    exists (es : list ratio_entry) (w' : world),
      for_io (scan_body float_of_str get_latest_rv20) tickers acc w
      = (Ret (acc ++ es), w')
      /\ (length es <= length tickers)%nat
      /\ Forall (fun e => consistent get_latest_rv20 e
                          /\ In (ticker e) (map (fun t => upper (strip t))
                                                tickers)) es.
Proof.
  induction tickers as [|t tickers IH]; intros acc w.
  - exists [], w. rewrite app_nil_r. repeat split; constructor.
  - cbn [for_io]. unfold Net.bind at 1. unfold scan_body at 1.
    unfold Net.bind at 1.
    destruct (compute_iv_rv_score_run t default_base_url w)
      as [d [w1 [E Hd]]].
    rewrite E. destruct d as [e|]; unfold ret at 1.
    + destruct (IH (acc ++ [e]) w1) as [es [w2 [E2 [Hl Hes]]]].
      exists (e :: es), w2. rewrite E2, <- app_assoc.
      split; [reflexivity|]. split; [simpl; lia|].
      destruct (Hd e eq_refl) as [Ht Hc].
      constructor.
      * split; [exact Hc|]. left. symmetry. exact Ht.
      * eapply Forall_impl; [|exact Hes].
        intros x [Hx Hin]. split; [exact Hx|]. right. exact Hin.
    + destruct (IH acc w1) as [es [w2 [E2 [Hl Hes]]]].
      exists es, w2. rewrite E2.
      split; [reflexivity|]. split; [simpl; lia|].
      eapply Forall_impl; [|exact Hes].
      intros x [Hx Hin]. split; [exact Hx|]. right. exact Hin.
Qed.

Lemma StronglySorted_firstn {A : Type} (R : A -> A -> Prop) (n : nat)
    (l : list A) :
  StronglySorted R l -> StronglySorted R (firstn n l).
Proof.
  intros H. revert n. induction H as [|x l Hs IH Hx]; intros [|n];
    cbn [firstn]; try constructor.
  - apply IH.
  - apply Forall_forall. intros y Hy. apply firstn_In in Hy.
    rewrite Forall_forall in Hx. apply Hx, Hy.
Qed.

(** X17. [/api/scan] raises only when both ticker sources fail.  Otherwise it
    returns at most 10 entries, in descending order of iv/rv, taken from
    the tickers that have an ATM iv and a stored non-zero rv; each entry's
    ratio is its iv over the stored rv, which is the score of
    [score_iv_gap] plus 1; [count] tells how many tickers qualified. *)
Theorem scan_returns_top_ratios (file : option (list string))
    (csv : result (list string)) (w : world) :
  match Universe._get_sp500_tickers_safe file csv with
  | Raise e =>
      scan float_of_str get_latest_rv20 file csv w = (Raise e, w)
  | Ret (tickers, _) =>
      exists (reply : scan_reply) (w' : world),
        scan float_of_str get_latest_rv20 file csv w = (Ret reply, w')
        /\ (count reply <= length tickers)%nat
        /\ length (top10 reply) = Nat.min 10 (count reply)
        /\ StronglySorted (desc iv_rv_ratio) (top10 reply)
        /\ Forall (fun e => consistent get_latest_rv20 e
                            /\ In (ticker e)
                                  (map (fun t => upper (strip t)) tickers))
                  (top10 reply)
  end.
Proof.
  unfold scan, Net.bind, pure.
  destruct (Universe._get_sp500_tickers_safe file csv) as [[tickers src]|e];
    [|reflexivity].
  cbn [fst].
  destruct (ratio_loop_run tickers [] w) as [es [w' [E [Hl Hes]]]].
  rewrite E. cbn [app]. unfold ret.
  do 2 eexists. split; [reflexivity|]. cbn [count top10].
  assert (Hlen : length (sort_reverse iv_rv_ratio es) = length es).
  { apply Permutation_length, sort_reverse_perm. }
  change 10%Z with (Z.of_nat 10). rewrite slice_to_firstn.
  split; [lia|]. split; [apply length_firstn|]. split.
  - apply StronglySorted_firstn, sort_reverse_sorted.
  - apply Forall_forall. intros x Hx. apply firstn_In in Hx.
    apply (Permutation_in _ (sort_reverse_perm iv_rv_ratio es)) in Hx.
    rewrite Forall_forall in Hes. apply Hes, Hx.
Qed.

End RatioFacts.

(** ** The endpoints in front of the provider *)

Section SymbolsParameter.

Import Api.

Lemma split_plain (c : ascii) (s : string) :
  has_char c s = false -> split c s = [s].
Proof.
  induction s as [|a rest IH]; [reflexivity|].
  cbn [has_char split]. destruct (Ascii.eqb a c); [discriminate|].
  cbn [orb]. intros H. rewrite (IH H). reflexivity.
Qed.

Lemma split_piece (c : ascii) (x rest : string) :
  has_char c x = false ->
  split c (x ++ String c rest) = x :: split c rest.
Proof.
  induction x as [|a x IH]; cbn [has_char append split].
  - intros _. rewrite Ascii.eqb_refl. reflexivity.
  - destruct (Ascii.eqb a c); [discriminate|]. cbn [orb].
    intros H. rewrite (IH H). reflexivity.
Qed.

Lemma split_join (chunk : list string) :
  chunk <> [] ->
  Forall (fun s => has_char ","%char s = false) chunk ->
  split ","%char (join "," chunk) = chunk.
Proof.
  intros Hne H. induction H as [|x l Hx Hl IH]; [contradiction|].
  destruct l as [|y l].
  - cbn [join]. apply split_plain, Hx.
  - change (join "," (x :: y :: l))
      with (x ++ String ","%char (join "," (y :: l)))%string.
    rewrite split_piece by exact Hx. rewrite IH; [reflexivity|discriminate].
Qed.

Lemma sym_list_of_join (chunk : list string) :
  Forall plain_symbol chunk ->
  sym_list_of (join "," chunk) (Z.of_nat (length chunk)) = chunk.
Proof.
  intros H. unfold sym_list_of. rewrite slice_to_firstn.
  assert (Hid : map strip (filter (fun s => nonempty (strip s)) chunk)
                = chunk).
  { induction H as [|x l [Hs [Hne Hc]] Hl IH]; [reflexivity|].
    cbn [filter]. rewrite Hs. unfold nonempty at 1.
    destruct (String.eqb_spec x ""); [contradiction|]. cbn [negb map].
    rewrite Hs. f_equal.
    assert (E : filter (fun s => nonempty (strip s)) l
                = filter (fun s => negb (String.eqb (strip s) "")) l)
      by reflexivity.
    exact IH. }
  destruct chunk as [|x l]; [reflexivity|].
  rewrite split_join.
  - rewrite Hid. apply firstn_all.
  - discriminate.
  - eapply Forall_impl; [|exact H]. intros s [_ [_ Hc]]. exact Hc.
Qed.

(** X18. The client's [",".join(chunk)] and the endpoint's reading of its
    [symbols] parameter undo each other: for stripped, non-empty,
    comma-free symbols the endpoint works on exactly the client's chunk
    when [limit] is the chunk's length. *)
Theorem symbols_parameter_round_trip (chunk : list string) :
  Forall plain_symbol chunk ->
  sym_list_of (join "," chunk) (Z.of_nat (length chunk)) = chunk.
Proof. apply sym_list_of_join. Qed.

Lemma symbols_parameter_round_trip_witness :
  sym_list_of (join "," ["AAPL240621C150"; "AAPL240621C160"]%string) 2
  = ["AAPL240621C150"; "AAPL240621C160"]%string.
Proof.
  apply (symbols_parameter_round_trip
           ["AAPL240621C150"; "AAPL240621C160"]%string).
  repeat constructor; discriminate.
Defined.

End SymbolsParameter.

Section BatchEndpoint.

Import Api Aux.

Variable api_key : option string.
Variable text_of : response -> string.

Hypothesis key_present : key_missing api_key = false.

Lemma batch_body_run (sym : string) (b : batch) (w : world) :
  exists (b' : batch) (w' : world),
    batch_body text_of sym b w = (Ret b', w')
    /\ sent w' = S (sent w)
    /\ replies w' = replies w
    /\ match quote_served (replies w (sent w)) with
       | Some j => quotes b' = dict_set sym j (quotes b)
                   /\ failed b' = failed b
       | None => quotes b' = quotes b
                 /\ length (failed b') = S (length (failed b))
       end.
Proof.
  unfold batch_body, try_except, Net.bind, requests_get, quote_served.
  destruct (replies w (sent w)) as [|st body].
  { do 2 eexists. split; [reflexivity|]. cbn.
    rewrite length_app. cbn. repeat split. lia. }
  unfold refused. cbn [status_code].
  destruct ((st =? 200)%Z || (st =? 203)%Z); cbn [negb].
  2:{ do 2 eexists. split; [reflexivity|]. cbn.
      rewrite length_app. cbn.
      destruct body as [[| | | | |fields]|]; repeat split; lia. }
  unfold pure, json_of. cbn [payload].
  destruct body as [j|].
  2:{ do 2 eexists. split; [reflexivity|]. cbn.
      rewrite length_app. cbn. repeat split. lia. }
  destruct j as [| | | | |fields];
    try (do 2 eexists; split; [reflexivity|]; cbn;
         rewrite length_app; cbn; repeat split; lia).
  cbn [get andb].
  destruct (not_ok _); cbn [negb].
  - do 2 eexists. split; [reflexivity|]. cbn.
    rewrite length_app. cbn. repeat split. lia.
  - do 2 eexists. split; [reflexivity|]. cbn. repeat split.
Qed.

Lemma served_cons (s : string) (syms : list string) (r : reply)
    (rs : list reply) :
  served (s :: syms) (r :: rs)
  = match quote_served r with
    | Some j => (s, j) :: served syms rs
    | None => served syms rs
    end.
Proof.
  unfold served. cbn [combine Scan.choose snd fst].
  destruct (quote_served r); reflexivity.
Qed.

Lemma batch_loop_run (syms : list string) :
  forall (b : batch) (w : world),
    exists (b' : batch) (w' : world),
      for_io (batch_body text_of) syms b w = (Ret b', w')
      /\ sent w' = (length syms + sent w)%nat
      /\ replies w' = replies w
      /\ quotes b'
         = dict_update (quotes b)
             (served syms (map (replies w) (seq (sent w) (length syms))))
      /\ (length (failed b')
          + length (served syms
                      (map (replies w) (seq (sent w) (length syms)))))%nat
         = (length (failed b) + length syms)%nat.
Proof.
  induction syms as [|sym syms IH]; intros b w.
  - exists b, w. repeat split; cbn; lia.
  - cbn [for_io]. unfold Net.bind at 1.
    destruct (batch_body_run sym b w) as [b1 [w1 [E [Hs [Hr Hq]]]]].
    rewrite E.
    destruct (IH b1 w1) as [b2 [w2 [E2 [Hs2 [Hr2 [Hq2 Hf2]]]]]].
    exists b2, w2. split; [exact E2|].
    split; [rewrite Hs2, Hs; simpl; lia|].
    split; [congruence|].
    rewrite Hs, Hr in Hq2, Hf2.
    cbn [length seq map]. rewrite served_cons.
    destruct (quote_served (replies w (sent w))) as [j|].
    + destruct Hq as [Hq Hf]. rewrite Hq in Hq2. rewrite Hf in Hf2.
      split; [exact Hq2|]. cbn [length]. lia.
    + destruct Hq as [Hq Hf]. rewrite Hq in Hq2. rewrite Hf in Hf2.
      split; [exact Hq2|]. lia.
Qed.

Lemma served_keys_incl (syms : list string) :
  forall (rs : list reply) (s : string),
    In s (keys (served syms rs)) -> In s syms.
Proof.
  induction syms as [|x syms IH]; intros [|r rs] s; try (intros []).
  rewrite served_cons. destruct (quote_served r); intros H.
  - destruct H as [H|H]; [left; exact H|right; eapply IH; eauto].
  - right. eapply IH; eauto.
Qed.

Lemma served_keys_nodup (syms : list string) :
  NoDup syms -> forall rs, NoDup (keys (served syms rs)).
Proof.
  induction 1 as [|x syms Hx Hnd IH]; intros [|r rs];
    try (cbn; constructor).
  rewrite served_cons. destruct (quote_served r).
  - unfold keys. cbn [map fst]. constructor; [|apply IH].
    intros F. apply Hx. eapply served_keys_incl. exact F.
  - apply IH.
Qed.

Lemma dict_set_fresh {V : Type} (k : string) (v : V) (d : dict V) :
  ~ In k (keys d) -> dict_set k v d = d ++ [(k, v)].
Proof.
  unfold keys. induction d as [|[k' v'] d IH]; cbn; intros H.
  - reflexivity.
  - destruct (String.eqb_spec k k') as [->|Hne]; [tauto|].
    rewrite IH; [reflexivity|tauto].
Qed.

Lemma dict_update_fresh {V : Type} (l : dict V) :
  forall d : dict V, NoDup (keys (d ++ l)) -> dict_update d l = d ++ l.
Proof.
  unfold dict_update.
  induction l as [|[k v] l IH]; intros d H; cbn [fold_left fst snd].
  - rewrite app_nil_r. reflexivity.
  - assert (Hk : ~ In k (keys d)).
    { unfold keys in *. rewrite map_app in H. cbn in H.
      apply NoDup_remove_2 in H. intros F. apply H.
      apply in_or_app. left. exact F. }
    rewrite dict_set_fresh by exact Hk.
    rewrite IH; [rewrite <- app_assoc; reflexivity|].
    rewrite <- app_assoc. exact H.
Qed.

Lemma options_quotes_batch_run (symbols : string) (limit : Z)
    (w : world) :
  sym_list_of symbols limit <> [] ->
  let syms := sym_list_of symbols limit in
  let rs := map (replies w) (seq (sent w) (length syms)) in
  exists (q : dict json) (f : list json) (w' : world),
    options_quotes_batch api_key text_of symbols limit w
    = (Ret (JObj [("s"%string, JStr "ok"); ("quotes"%string, JObj q);
                  ("failed"%string, JArr f);
                  ("count"%string, JNum (INR (length q)))]), w')
    /\ sent w' = (length syms + sent w)%nat
    /\ q = dict_update [] (served syms rs)
    /\ (length f + length (served syms rs) = length syms)%nat
    /\ (forall s : string, In s (keys q) -> In s syms)
    /\ (NoDup syms -> q = served syms rs).
Proof.
  intros Hne. cbv zeta.
  unfold options_quotes_batch. rewrite key_present.
  destruct (batch_loop_run (sym_list_of symbols limit)
              {| quotes := []; failed := [] |} w)
    as [b [w' [E [Hs [_ [Hq Hf]]]]]].
  destruct (sym_list_of symbols limit) as [|s0 rest]; [contradiction|].
  set (syms := s0 :: rest) in *.
  set (rs := map (replies w) (seq (sent w) (length syms))) in *.
  unfold Net.bind. rewrite E. unfold ret.
  exists (quotes b), (failed b), w'.
  cbn [quotes failed] in Hq, Hf.
  change (length (@nil json)) with 0%nat in Hf.
  split; [reflexivity|]. split; [exact Hs|]. split; [exact Hq|].
  split; [lia|]. split.
  - intros s Hin. rewrite Hq in Hin.
    apply dict_get_in_keys in Hin. rewrite dict_get_update in Hin.
    destruct (dict_get s (rev (served syms rs))) eqn:Eg;
      [|contradiction].
    assert (Hk : In s (keys (rev (served syms rs)))).
    { apply dict_get_in_keys. rewrite Eg. discriminate. }
    unfold keys in Hk. rewrite map_rev, <- in_rev in Hk.
    eapply served_keys_incl. exact Hk.
  - intros Hnd. rewrite Hq. apply (dict_update_fresh _ []).
    cbn [app]. apply served_keys_nodup, Hnd.
Qed.

(** X19. With a key configured and at least one symbol to look up,
    [options_quotes_batch] never raises and sends one request per symbol;
    every symbol ends either in [quotes], when the provider served it under
    status 200 or 203 with ["s": "ok"], or in [failed]; [count] is the
    number of quotes.  For symbols without repetition [quotes] lists the
    served symbols in request order. *)
Theorem options_quotes_batch_sorts_symbols (symbols : string) (limit : Z)
    (w : world) :
  sym_list_of symbols limit <> [] ->
  let syms := sym_list_of symbols limit in
  let rs := map (replies w) (seq (sent w) (length syms)) in
  exists (q : dict json) (f : list json) (w' : world),
    options_quotes_batch api_key text_of symbols limit w
    = (Ret (JObj [("s"%string, JStr "ok"); ("quotes"%string, JObj q);
                  ("failed"%string, JArr f);
                  ("count"%string, JNum (INR (length q)))]), w')
    /\ sent w' = (length syms + sent w)%nat
    /\ q = dict_update [] (served syms rs)
    /\ (length f + length (served syms rs) = length syms)%nat
    /\ (forall s : string, In s (keys q) -> In s syms)
    /\ (NoDup syms -> q = served syms rs).
Proof. apply options_quotes_batch_run. Qed.

(** X20. A chunk of the quote fetch, followed through the local endpoint to the
    provider and back: for a non-empty chunk of distinct, stripped,
    comma-free symbols the endpoint asks the provider once per symbol, its
    answer does not count as a failed chunk, and what the fetch merges into
    its result is exactly the quotes the provider served, symbol by
    symbol. *)
Theorem chunk_through_the_local_endpoint (chunk : list string) (w : world) :
  chunk <> [] ->
  NoDup chunk ->
  Forall plain_symbol chunk ->
  let rs := map (replies w) (seq (sent w) (length chunk)) in
  exists (body : json) (w' : world),
    options_quotes_batch api_key text_of (join "," chunk)
      (Z.of_nat (length chunk)) w = (Ret body, w')
    /\ sent w' = (length chunk + sent w)%nat
    /\ Scan.chunk_failed (Reply 200 (Some body)) = false
    /\ forall out : dict json,
         Scan.absorb out (Reply 200 (Some body))
         = dict_update out (served chunk rs).
Proof.
  intros Hne Hnd Hplain rs.
  pose proof (sym_list_of_join chunk Hplain) as Hrt.
  destruct (options_quotes_batch_run (join "," chunk)
              (Z.of_nat (length chunk)) w)
    as [q [f [w' [E [Hs [_ [_ [_ Hq]]]]]]]].
  { rewrite Hrt. exact Hne. }
  rewrite Hrt in *. specialize (Hq Hnd). fold rs in Hq.
  do 2 eexists. split; [exact E|]. split; [exact Hs|].
  split; [reflexivity|].
  intros out. unfold Scan.absorb. cbn. rewrite Hq. reflexivity.
Qed.

End BatchEndpoint.

Section BatchSamples.

Import Api Aux MoreSamples.

Local Open Scope string_scope.

(** Two symbols, the second unknown to the provider. *)
Lemma options_quotes_batch_sorts_symbols_witness :
  exists (q : dict json) (f : list json) (w' : world),
    options_quotes_batch some_key no_text "AAPL240621C150, XYZ" 50 provider
    = (Ret (JObj [("s", JStr "ok"); ("quotes", JObj q); ("failed", JArr f);
                  ("count", JNum (INR (length q)))]), w')
    /\ sent w' = 2%nat
    /\ q = [("AAPL240621C150", provider_quote)]
    /\ length f = 1%nat.
Proof.
  destruct (options_quotes_batch_sorts_symbols some_key no_text eq_refl
              "AAPL240621C150, XYZ" 50 provider)
    as [q [f [w' [E [Hs [Hq [Hf _]]]]]]].
  - discriminate.
  - exists q, f, w'. split; [exact E|]. split; [exact Hs|].
    split; [rewrite Hq; reflexivity|].
    change (length f + 1 = 2)%nat in Hf. lia.
Defined.

Lemma chunk_through_the_local_endpoint_witness :
  exists (body : json) (w' : world),
    options_quotes_batch some_key no_text
      (join "," ["AAPL240621C150"; "XYZ"]) 2 provider = (Ret body, w')
    /\ sent w' = 2%nat
    /\ Scan.absorb [] (Reply 200 (Some body))
       = [("AAPL240621C150", provider_quote)].
Proof.
  destruct (chunk_through_the_local_endpoint some_key no_text eq_refl
              ["AAPL240621C150"; "XYZ"] provider)
    as [body [w' [E [Hs [_ Ha]]]]].
  - discriminate.
  - repeat constructor; simpl; intuition discriminate.
  - repeat constructor; discriminate.
  - exists body, w'. split; [exact E|]. split; [exact Hs|].
    rewrite Ha. reflexivity.
Defined.

End BatchSamples.

Section PriceEndpoint.

Import Api Aux.

Variable float_of_str : string -> option R.
Variable api_key : option string.

Hypothesis key_present : key_missing api_key = false.

(** X21. The spot the scanner works with, followed from the provider through
    [stocks_price] and the local HTTP hop to [fetch_spot]: for a provider
    body with status ["ok"] it is the provider's mid, else the middle of
    bid and ask, else last, each taken from the first element of its
    array; it is [None] when the provider's status is not ["ok"] or none
    of these prices is there. *)
Theorem spot_through_the_local_endpoint (ticker : string) (st : Z)
    (fields : list (string * json)) (w : world) :
  replies w (sent w) = Reply st (Some (JObj fields)) ->
  ((400 <=? st) && (st <? 600))%Z = false ->
  exists body : json,
    fst (stocks_price float_of_str api_key ticker w) = Ret body
    /\ forall (base_url t : string) (wl : world),
         replies wl (sent wl) = Reply 200 (Some body) ->
         fst (Scan.fetch_spot float_of_str base_url t wl)
         = Ret (if not_ok (match dict_get "s" fields with
                           | Some v => v
                           | None => JNull
                           end)
                then None
                else quote_price float_of_str (JObj fields)).
Proof.
  intros Hreply Hst.
  unfold stocks_price. rewrite key_present.
  unfold Net.bind, requests_get, pure, raise_for_status, json_of.
  rewrite Hreply. cbn [status_code payload]. rewrite Hst. cbn [get].
  destruct (not_ok match dict_get "s" fields with
                   | Some v => v
                   | None => JNull
                   end) eqn:Es.
  - eexists. split; [reflexivity|].
    intros base_url t wl Hl.
    unfold Scan.fetch_spot, Net.bind, requests_get, pure.
    rewrite Hl. reflexivity.
  - unfold quote_price.
    set (vm := match dict_get "mid" fields with Some v => v | None => JNull end).
    set (vb := match dict_get "bid" fields with Some v => v | None => JNull end).
    set (va := match dict_get "ask" fields with Some v => v | None => JNull end).
    set (vl := match dict_get "last" fields with Some v => v | None => JNull end).
    assert (Hm : match dict_get "mid" fields with
                 | Some v => _first_float float_of_str v
                 | None => None
                 end = _first_float float_of_str vm)
      by (unfold vm; destruct (dict_get "mid" fields); reflexivity).
    assert (Hb : match dict_get "bid" fields with
                 | Some v => _first_float float_of_str v
                 | None => None
                 end = _first_float float_of_str vb)
      by (unfold vb; destruct (dict_get "bid" fields); reflexivity).
    assert (Ha : match dict_get "ask" fields with
                 | Some v => _first_float float_of_str v
                 | None => None
                 end = _first_float float_of_str va)
      by (unfold va; destruct (dict_get "ask" fields); reflexivity).
    assert (Hl : match dict_get "last" fields with
                 | Some v => _first_float float_of_str v
                 | None => None
                 end = _first_float float_of_str vl)
      by (unfold vl; destruct (dict_get "last" fields); reflexivity).
    rewrite Hm, Hb, Ha, Hl.
    destruct (_first_float float_of_str vm) as [m|];
      destruct (_first_float float_of_str vb) as [b|];
      destruct (_first_float float_of_str va) as [a|];
      destruct (_first_float float_of_str vl) as [l|];
      (eexists; split; [reflexivity|];
       intros base_url t wl Hwl;
       unfold Scan.fetch_spot, Net.bind, requests_get, pure;
       rewrite Hwl; reflexivity).
Qed.

(** X22. The option chain, followed the same way through [options_chain] to
    [fetch_chain_symbols]: for a provider body with status ["ok"] whose
    [optionSymbol] is a list, the scanner gets the strings of that list
    that are not blank, in the provider's order; when that key is absent
    from the body or the status is not ["ok"] it gets the empty chain. *)
Theorem chain_through_the_local_endpoint (ticker : string) (st : Z)
    (fields : list (string * json)) (w : world) :
  replies w (sent w) = Reply st (Some (JObj fields)) ->
  ((400 <=? st) && (st <? 600))%Z = false ->
  exists body : json,
    fst (options_chain api_key ticker w) = Ret body
    /\ forall (base_url t : string) (wl : world),
         replies wl (sent wl) = Reply 200 (Some body) ->
         (not_ok (match dict_get "s" fields with
                  | Some v => v
                  | None => JNull
                  end) = true ->
          fst (Scan.fetch_chain_symbols base_url t wl) = Ret [])
         /\ (not_ok (match dict_get "s" fields with
                     | Some v => v
                     | None => JNull
                     end) = false ->
             (dict_get "optionSymbol" fields = None ->
              fst (Scan.fetch_chain_symbols base_url t wl) = Ret [])
             /\ (forall items : list json,
                    dict_get "optionSymbol" fields = Some (JArr items) ->
                    fst (Scan.fetch_chain_symbols base_url t wl)
                    = Ret (Scan.choose Scan.is_symbol items))).
Proof.
  intros Hreply Hst.
  unfold options_chain. rewrite key_present.
  unfold Net.bind, requests_get, pure, raise_for_status, json_of.
  rewrite Hreply. cbn [status_code payload]. rewrite Hst. cbn [get get_or].
  destruct (not_ok match dict_get "s" fields with
                   | Some v => v
                   | None => JNull
                   end) eqn:Es.
  - eexists. split; [reflexivity|].
    intros base_url t wl Hl.
    unfold Scan.fetch_chain_symbols, Net.bind, requests_get, pure.
    rewrite Hl. split; [reflexivity|discriminate].
  - eexists. split; [reflexivity|].
    intros base_url t wl Hl.
    unfold Scan.fetch_chain_symbols, Net.bind, requests_get, pure.
    rewrite Hl. split; [discriminate|]. intros _. split.
    + intros ->. reflexivity.
    + intros items ->. destruct items; reflexivity.
Qed.

End PriceEndpoint.

Section PriceSamples.

Import Api Aux MoreSamples.

Local Open Scope string_scope.

Lemma spot_through_the_local_endpoint_witness :
  exists body : json,
    fst (stocks_price Sample.no_text_number some_key "aapl" provider_stock)
    = Ret body
    /\ fst (Scan.fetch_spot Sample.no_text_number Sample.base "AAPL"
              (local body))
       = Ret (Some ((151 + 153) / 2)).
Proof.
  destruct (spot_through_the_local_endpoint Sample.no_text_number some_key
              eq_refl "aapl" 203
              [("s", JStr "ok"); ("bid", JArr [JNum 151]);
               ("ask", JArr [JNum 153]); ("last", JArr [JNum 150])]
              provider_stock eq_refl eq_refl) as [body [E H]].
  exists body. split; [exact E|].
  rewrite (H Sample.base "AAPL" (local body) eq_refl). reflexivity.
Defined.

Lemma chain_through_the_local_endpoint_witness :
  exists body : json,
    fst (options_chain some_key "aapl" provider_chain) = Ret body
    /\ fst (Scan.fetch_chain_symbols Sample.base "AAPL" (local body))
       = Ret ["AAPL240621C150"; "AAPL240621C160"].
Proof.
  destruct (chain_through_the_local_endpoint some_key eq_refl "aapl" 200
              [("s", JStr "ok");
               ("optionSymbol",
                JArr [JStr "AAPL240621C150"; JNull; JStr "  ";
                      JStr "AAPL240621C160"])]
              provider_chain eq_refl eq_refl) as [body [E H]].
  exists body. split; [exact E|].
  destruct (H Sample.base "AAPL" (local body) eq_refl) as [_ H2].
  destruct (H2 eq_refl) as [_ H3].
  rewrite (H3 _ eq_refl). reflexivity.
Defined.

End PriceSamples.

Section ScanSample.

Import Scan Main Sample.

Local Open Scope string_scope.

Lemma scan_sp500_never_raises_witness :
  exists (reply : scan_reply) (w' : world),
    scan_sp500 no_text_number ["AAPL"; "MSFT"; "XOM"] flat_rv 50 2 base
      (one_ticker (ok_body [("quotes", JObj one_quote)]))
    = (Ret reply, w')
    /\ count reply = 2%nat
    /\ (length (ranked reply) <= 60)%nat
    /\ (forall e : entry,
           In e (ranked reply) -> In (ticker e) ["AAPL"; "MSFT"; "XOM"]).
Proof.
  destruct (scan_sp500_never_raises no_text_number ["AAPL"; "MSFT"; "XOM"]
              flat_rv 50 2 base
              (one_ticker (ok_body [("quotes", JObj one_quote)])))
    as [reply [w' [E [Hc [Hl Hin]]]]].
  exists reply, w'. split; [exact E|]. split; [exact Hc|].
  split; [apply Hl; lia|exact Hin].
Defined.

End ScanSample.
